(** * Updater orchestration (system/updated/updated.py)

    A shallow embedding of the casync-based updater: the build identity
    comparison, the staging download, the finalize protocol around the
    consistency marker, and one turn of the polling loop in [main]. *)

From stdpp Require Import gmap strings list fin_maps.

Open Scope string_scope.
Open Scope list_scope.

(** ** Build metadata (openpilot.system.version) *)

Record OpenpilotMetadata := {
  version : string;
  release_notes : string;
  git_commit : string;
}.

Record BuildMetadata := {
  channel : string;
  openpilot : OpenpilotMetadata;
}.

Global Instance OpenpilotMetadata_eq_dec : EqDecision OpenpilotMetadata.
Proof. solve_decision. Defined.

Global Instance BuildMetadata_eq_dec : EqDecision BuildMetadata.
Proof. solve_decision. Defined.

(** ** Directory trees

    A directory is a finite map from the path of an entry, relative to the
    directory, to what is stored there. *)

Inductive fentry :=
| File (data : string)
| Symlink (target : string)
| Dir.

Global Instance fentry_eq_dec : EqDecision fentry.
Proof. solve_decision. Defined.

Abbreviation tree := (gmap string fentry).

(** The four directories the updater works on.  [CASYNC_PATH],
    [CASYNC_TMPDIR] and [FINALIZED] are siblings below [STAGING_ROOT], which
    exists; each of them is either missing ([None]) or a directory. *)
Inductive path := BASEDIR | CASYNC_PATH | CASYNC_TMPDIR | FINALIZED.

Global Instance path_eq_dec : EqDecision path.
Proof. solve_decision. Defined.

Record filesys := {
  basedir : option tree;
  casync : option tree;
  casync_tmp : option tree;
  finalized : option tree;
}.

Global Instance filesys_eq_dec : EqDecision filesys.
Proof. solve_decision. Defined.

Definition read_dir (fs : filesys) (p : path) : option tree :=
  match p with
  | BASEDIR => basedir fs
  | CASYNC_PATH => casync fs
  | CASYNC_TMPDIR => casync_tmp fs
  | FINALIZED => finalized fs
  end.

Definition write_dir (p : path) (d : option tree) (fs : filesys) : filesys :=
  match p with
  | BASEDIR => {| basedir := d; casync := casync fs;
                  casync_tmp := casync_tmp fs; finalized := finalized fs |}
  | CASYNC_PATH => {| basedir := basedir fs; casync := d;
                      casync_tmp := casync_tmp fs; finalized := finalized fs |}
  | CASYNC_TMPDIR => {| basedir := basedir fs; casync := casync fs;
                        casync_tmp := d; finalized := finalized fs |}
  | FINALIZED => {| basedir := basedir fs; casync := casync fs;
                    casync_tmp := casync_tmp fs; finalized := d |}
  end.

(** ** Updater state, user requests, manifest *)

Inductive UpdaterState := IDLE | CHECKING | DOWNLOADING | FINALIZING | FAILED.

Global Instance UpdaterState_eq_dec : EqDecision UpdaterState.
Proof. solve_decision. Defined.

(** The [StrEnum] values. *)
Definition state_value (st : UpdaterState) : string :=
  match st with
  | IDLE => "idle"
  | CHECKING => "checking..."
  | DOWNLOADING => "downloading..."
  | FINALIZING => "finalizing update..."
  | FAILED => "failed to check for update..."
  end.

Inductive UserRequest := NONE | CHECK | FETCH.

Global Instance UserRequest_eq_dec : EqDecision UserRequest.
Proof. solve_decision. Defined.

(** One manifest entry: a JSON object whose values, where the loop of
    [download_update] reads them, are strings.  A key the object lacks is
    [None]; [e_caidx] stands for [entry["casync"]["caidx"]]. *)
Record entry := {
  e_type : option string;
  e_path : option string;
  e_caidx : option string;
}.

Abbreviation Manifest := (list entry).

(** ** Exceptions and results *)

Inductive exn :=
| FileNotFoundError
| FileExistsError
| IsADirectoryError
| OSError
| KeyError
| AttributeError
| TypeError
| RequestException
| JSONDecodeError
| CalledProcessError
| InvalidBuildMetadata
| AgnosUpdateError.

Inductive result (A : Type) :=
| Ok (a : A)
| Raise (e : exn).
Arguments Ok {A} a.
Arguments Raise {A} e.

(** ** The machine: parameter store, disk and pending user request *)

Record snapshot := {
  params : gmap string string;
  disk : filesys;
  request : UserRequest;
}.

Definition with_params (f : gmap string string → gmap string string)
    (s : snapshot) : snapshot :=
  {| params := f (params s); disk := disk s; request := request s |}.

Definition with_disk (f : filesys → filesys) (s : snapshot) : snapshot :=
  {| params := params s; disk := f (disk s); request := request s |}.

Definition with_request (r : UserRequest) (s : snapshot) : snapshot :=
  {| params := params s; disk := disk s; request := r |}.

(** What an outside observer can see the updater do, one step at a time. *)
Inductive event :=
| EvSync
| EvUnlink (p : path) (name : string)
| EvTouch (p : path) (name : string)
| EvRemove (p : path) (name : string)
| EvRmdir (p : path)
| EvMkdir (p : path)
| EvCopy (src dst : path) (name : string)
| EvExtract (caidx : string) (dst seed : path)
| EvAgnos (p : path)
| EvFetch (channel : string)
| EvPut (key value : string)
| EvSetStatus (st : UpdaterState) (update_available update_ready : bool).

Global Instance event_eq_dec : EqDecision event.
Proof. solve_decision. Defined.

(** Every step is recorded with the machine as it stands right after it. *)
Abbreviation trace := (list (event * snapshot)).

Definition M (A : Type) : Type := snapshot → trace * snapshot * result A.

Definition ret {A} (a : A) : M A := λ s, ([], s, Ok a).

Definition raise {A} (e : exn) : M A := λ s, ([], s, Raise e).

Definition bind {A B} (m : M A) (f : A → M B) : M B := λ s,
  match m s with
  | (t1, s1, Ok a) =>
      match f a s1 with (t2, s2, r) => (t1 ++ t2, s2, r) end
  | (t1, s1, Raise e) => (t1, s1, Raise e)
  end.

Global Instance M_ret : MRet M := @ret.
Global Instance M_bind : MBind M := λ A B f m, bind m f.

Definition get : M snapshot := λ s, ([], s, Ok s).

Definition emit (ev : event) (f : snapshot → snapshot) : M unit := λ s,
  let s' := f s in ([(ev, s')], s', Ok tt).

Fixpoint for_each {A} (l : list A) (body : A → M unit) : M unit :=
  match l with
  | [] => ret tt
  | x :: xs => body x ;; for_each xs body
  end.

Definition events {A} (x : trace * snapshot * result A) : list event := x.1.1.*1.
Definition steps {A} (x : trace * snapshot * result A) : trace := x.1.1.
Definition final {A} (x : trace * snapshot * result A) : snapshot := x.1.2.
Definition outcome {A} (x : trace * snapshot * result A) : result A := x.2.

Arguments events {A} !x /.
Arguments steps {A} !x /.
Arguments final {A} !x /.
Arguments outcome {A} !x /.

(** ** The environment of one run

    Everything the updater calls but does not define: the remote API, the
    casync tool, the helpers of other modules, and the failures the file
    system may inject into [shutil.rmtree] and [shutil.copytree]. *)

(** What [requests.get(url).json()] gives.  For a JSON body the two keys
    [get_remote_channel_data] reads are kept: a missing key is [None]; a
    [build_metadata] value that [build_metadata_from_dict] rejects is
    [Some None]; a [manifest] that is JSON [null] is [Some None], and it is
    passed on as it is, [data["manifest"]] being read but not looked
    into. *)
Inductive http_result :=
| RequestFailed
| BodyNotJson
| JsonBody (build_metadata : option (option BuildMetadata))
           (manifest : option (option Manifest)).

Record world := {
  API_HOST : string;
  AGNOS : bool;
  (** the build metadata a directory tree declares, if any *)
  build_metadata_of : tree → option BuildMetadata;
  (** [MarkdownIt().render] *)
  markdown_render : string → string;
  requests_get_json : string → http_result;
  (** [casync extract caidx dst --seed=seed]: whether it exits with status
      zero, and what it leaves at the destination *)
  casync_extract : string → option tree → option tree → bool * option tree;
  (** whether [run_cmd] turns a non-zero exit status into an exception *)
  run_cmd_checks : bool;
  (** whether [handle_agnos_update] returns normally *)
  agnos_update_ok : bool;
  (** [Some names]: [rmtree] fails after having removed the entries [names] *)
  rmtree_fault : option (list string);
  (** [Some names]: [copytree] fails after having copied the entries [names] *)
  copytree_fault : option (list string);
}.

Definition UPDATE_DELAY : nat := 60.
Definition CHANNELS_API_ROOT : string := "openpilot/channels".
Definition sentinel : string := ".overlay_consistent".
Definition INSTALL_ROOT : string := "/data/openpilot".

Definition names_of (d : tree) : list string := (map_to_list d).*1.

Definition has_marker (d : option tree) : bool :=
  match d with
  | Some t => bool_decide (is_Some (t !! sentinel))
  | None => false
  end.

Section Updater.

Variable w : world.

(** *** File-system primitives *)

Definition sync : M unit := emit EvSync id.

(** [Path.touch()] *)
Definition touch (p : path) (name : string) : M unit :=
  s ← get;
  match read_dir (disk s) p with
  | None => raise FileNotFoundError
  | Some d =>
      match d !! name with
      | Some _ => emit (EvTouch p name) id
      | None =>
          emit (EvTouch p name)
               (with_disk (write_dir p (Some (<[name := File ""]> d))))
      end
  end.

(** [Path.unlink(missing_ok=True)] *)
Definition unlink_missing_ok (p : path) (name : string) : M unit :=
  s ← get;
  match read_dir (disk s) p with
  | None => emit (EvUnlink p name) id
  | Some d =>
      match d !! name with
      | None => emit (EvUnlink p name) id
      | Some Dir => raise IsADirectoryError
      | Some _ =>
          emit (EvUnlink p name) (with_disk (write_dir p (Some (delete name d))))
      end
  end.

Definition remove_entry (p : path) (name : string) : M unit :=
  s ← get;
  match read_dir (disk s) p with
  | None => raise FileNotFoundError
  | Some d =>
      match d !! name with
      | None => ret tt
      | Some _ =>
          emit (EvRemove p name) (with_disk (write_dir p (Some (delete name d))))
      end
  end.

(** [shutil.rmtree(p)] *)
Definition rmtree (p : path) : M unit :=
  s ← get;
  match read_dir (disk s) p with
  | None => raise FileNotFoundError
  | Some d =>
      match rmtree_fault w with
      | Some names => for_each names (remove_entry p) ;; raise OSError
      | None =>
          for_each (names_of d) (remove_entry p) ;;
          emit (EvRmdir p) (with_disk (write_dir p None))
      end
  end.

Definition copy_entry (src dst : path) (name : string) : M unit :=
  s ← get;
  match read_dir (disk s) src, read_dir (disk s) dst with
  | Some a, Some b =>
      match a !! name with
      | None => ret tt
      | Some e =>
          emit (EvCopy src dst name)
               (with_disk (write_dir dst (Some (<[name := e]> b))))
      end
  | _, _ => raise FileNotFoundError
  end.

(** [shutil.copytree(src, dst, symlinks=True)]: every entry is reproduced as
    it is, a link stays a link. *)
Definition copytree_symlinks (src dst : path) : M unit :=
  s ← get;
  match read_dir (disk s) src with
  | None => raise FileNotFoundError
  | Some a =>
      match read_dir (disk s) dst with
      | Some _ => raise FileExistsError
      | None =>
          emit (EvMkdir dst) (with_disk (write_dir dst (Some ∅))) ;;
          match copytree_fault w with
          | Some names => for_each names (copy_entry src dst) ;; raise OSError
          | None => for_each (names_of a) (copy_entry src dst)
          end
      end
  end.

(** [Path.mkdir(exist_ok=True)] *)
Definition mkdir_exist_ok (p : path) : M unit :=
  s ← get;
  match read_dir (disk s) p with
  | Some _ => ret tt
  | None => emit (EvMkdir p) (with_disk (write_dir p (Some ∅)))
  end.

(** *** Helpers of other modules *)

(** Modelled from the spec: [get_build_metadata] of openpilot.system.version,
    the identity read from a directory's metadata file; a directory that
    declares none makes the call fail. *)
Definition get_build_metadata (p : path) : M BuildMetadata :=
  s ← get;
  match read_dir (disk s) p with
  | None => raise InvalidBuildMetadata
  | Some d =>
      match build_metadata_of w d with
      | Some bm => ret bm
      | None => raise InvalidBuildMetadata
      end
  end.

(** Modelled from the spec: [get_consistent_flag] of the selfdrive updater's
    test base, the marker state: whether the sentinel is present inside the
    directory. *)
Definition get_consistent_flag (p : path) : M bool :=
  s ← get; ret (has_marker (read_dir (disk s) p)).

(** Modelled from the spec: [run_cmd] of openpilot.common.run on a
    [casync extract] command line.  The tool rewrites the destination; its
    exit status reaches the caller only as an exception, and only if
    [run_cmd] checks it. *)
Definition run_cmd_extract (caidx : string) (dst seed : path) : M unit :=
  s ← get;
  let '(ok, d) := casync_extract w caidx (read_dir (disk s) dst)
                                 (read_dir (disk s) seed) in
  emit (EvExtract caidx dst seed) (with_disk (write_dir dst d)) ;;
  if negb ok && run_cmd_checks w then raise CalledProcessError else ret tt.

(** Modelled from the spec: [handle_agnos_update] of the selfdrive updater,
    the firmware co-update; it leaves the updater's directories alone. *)
Definition handle_agnos_update (p : path) : M unit :=
  emit (EvAgnos p) id ;;
  if agnos_update_ok w then ret tt else raise AgnosUpdateError.

(** *** updated.py *)

(** The body of the [try] of [get_remote_channel_data]; the manifest of
    the pair is [None] for a body whose [manifest] is [null]. *)
Definition fetch_channel_data (channel : string)
    : result (BuildMetadata * option Manifest) :=
  match requests_get_json w
          (API_HOST w +:+ "/" +:+ CHANNELS_API_ROOT +:+ "/" +:+ channel) with
  | RequestFailed => Raise RequestException
  | BodyNotJson => Raise JSONDecodeError
  | JsonBody None _ => Raise KeyError
  | JsonBody (Some None) _ => Raise InvalidBuildMetadata
  | JsonBody (Some (Some bm)) None => Raise KeyError
  | JsonBody (Some (Some bm)) (Some m) => Ok (bm, m)
  end.

Definition get_remote_channel_data (channel : string)
    : M (option BuildMetadata * option Manifest) :=
  emit (EvFetch channel) id ;;
  match fetch_channel_data channel with
  | Ok (bm, m) => ret (Some bm, m)
  | Raise _ => ret (None, None)
  end.

Definition set_consistent_flag (consistent : bool) : M unit :=
  sync ;;
  (if consistent then touch FINALIZED sentinel
   else if negb consistent then unlink_missing_ok FINALIZED sentinel
   else ret tt) ;;
  sync.

Definition put (key value : string) : M unit :=
  emit (EvPut key value) (with_params (<[key := value]>)).

Definition put_bool (key : string) (b : bool) : M unit :=
  put key (if b then "1" else "0").

(** An omitted argument is [None] and takes the default [False].  The last
    step records the call once its three writes are done. *)
Definition set_status_params (state : UpdaterState)
    (update_available update_ready : option bool) : M unit :=
  let update_available := default false update_available in
  let update_ready := default false update_ready in
  put "UpdaterState" (state_value state) ;;
  put_bool "UpdaterFetchAvailable" update_available ;;
  put_bool "UpdateAvailable" update_ready ;;
  emit (EvSetStatus state update_available update_ready) id.

Definition set_channel_params (name : string) (build_metadata : BuildMetadata)
    : M unit :=
  put ("Updater" +:+ name +:+ "Description")
      (version (openpilot build_metadata) +:+ " / " +:+ channel build_metadata) ;;
  put ("Updater" +:+ name +:+ "ReleaseNotes")
      (markdown_render w (release_notes (openpilot build_metadata))).

Definition set_current_channel_params := set_channel_params "Current".
Definition set_new_channel_params := set_channel_params "New".

Definition check_update_available (current_directory : path)
    (other_metadata : option BuildMetadata) : M bool :=
  build_metadata ← get_build_metadata current_directory;
  if bool_decide (channel build_metadata ≠ channel build_metadata) then ret true
  else
    match other_metadata with
    | None => raise AttributeError
    | Some other =>
        ret (bool_decide (git_commit (openpilot build_metadata)
                          ≠ git_commit (openpilot other)))
    end.

(** The test of the loop body of [download_update]; reading [entry["path"]]
    of an entry without that key fails. *)
Definition entry_selected (e : entry) : result bool :=
  match e_type e with
  | None => Ok false
  | Some t =>
      if bool_decide (t = "path") then
        match e_path e with
        | None => Raise KeyError
        | Some p => Ok (bool_decide (p = INSTALL_ROOT))
        end
      else Ok false
  end.

Definition download_entry (e : entry) : M unit :=
  match entry_selected e with
  | Raise x => raise x
  | Ok false => ret tt
  | Ok true =>
      match e_caidx e with
      | None => raise KeyError
      | Some caidx => run_cmd_extract caidx CASYNC_PATH BASEDIR
      end
  end.

Definition download_update (manifest : Manifest) : M unit :=
  mkdir_exist_ok CASYNC_TMPDIR ;;
  mkdir_exist_ok CASYNC_PATH ;;
  for_each manifest download_entry.

Definition finalize_update : M unit :=
  set_consistent_flag false ;;
  s ← get;
  (if bool_decide (is_Some (read_dir (disk s) FINALIZED))
   then rmtree FINALIZED else ret tt) ;;
  copytree_symlinks CASYNC_PATH FINALIZED ;;
  set_consistent_flag true.

(** [wait_helper.user_request = r] *)
Definition set_user_request (r : UserRequest) : M unit :=
  λ s, ([], with_request r s, Ok tt).

(** The download branch of the loop body (lines 160-171).  With a manifest
    that is [None], [download_update] creates the two directories and then
    fails on iterating it. *)
Definition fetch_and_finalize (remote_manifest : option Manifest) : M bool :=
  set_status_params DOWNLOADING None None ;;
  match remote_manifest with
  | Some m => download_update m
  | None => download_update [] ;; raise TypeError
  end ;;
  (if AGNOS w then handle_agnos_update CASYNC_PATH else ret tt) ;;
  set_status_params FINALIZING None None ;;
  finalize_update ;;
  new_build_metadata ← get_build_metadata FINALIZED;
  set_new_channel_params new_build_metadata ;;
  get_consistent_flag FINALIZED.

(** Lines 148-175 of the loop body: what a turn does with the answer of
    the remote. *)
Definition handle_remote (user_requested_check update_ready : bool)
    (remote_build_metadata : option BuildMetadata)
    (remote_manifest : option Manifest) : M unit :=
  if bool_decide (is_Some remote_build_metadata)
     || bool_decide (is_Some remote_manifest) then
    update_available ← check_update_available BASEDIR remote_build_metadata;
    update_available ←
      ((if update_ready then
          c ← check_update_available FINALIZED remote_build_metadata;
          ret (if negb c then false else update_available)
        else ret update_available) : M bool);
    set_status_params IDLE (Some update_available) (Some update_ready) ;;
    '(update_available, update_ready) ←
      ((if update_available : bool then
          if user_requested_check then ret (update_available, update_ready)
          else
            update_ready ← fetch_and_finalize remote_manifest;
            ret (false, update_ready)
        else ret (update_available, update_ready)) : M (bool * bool));
    set_status_params IDLE (Some update_available) (Some update_ready)
  else set_status_params FAILED (Some false) (Some false).

(** One turn of the [while True] loop of [main]. *)
Definition cycle : M unit :=
  s ← get;
  build_metadata ← get_build_metadata BASEDIR;
  target_channel ←
    match params s !! "UpdaterTargetBranch" with
    | Some t => ret t
    | None =>
        put "UpdaterTargetBranch" (channel build_metadata) ;;
        ret (channel build_metadata)
    end;
  let user_requested_check := bool_decide (request s = CHECK) in
  set_status_params CHECKING None None ;;
  update_ready ← get_consistent_flag FINALIZED;
  set_current_channel_params build_metadata ;;
  '(remote_build_metadata, remote_manifest) ←
    get_remote_channel_data target_channel;
  handle_remote user_requested_check update_ready
    remote_build_metadata remote_manifest ;;
  set_user_request NONE.

(** [main] for as many turns as there are user requests in [reqs]: the
    request pending when a turn starts is the one the signal handlers left. *)
Fixpoint run_cycles (reqs : list UserRequest) : M unit :=
  match reqs with
  | [] => ret tt
  | r :: rs => set_user_request r ;; cycle ;; run_cycles rs
  end.

Definition main (reqs : list UserRequest) : M unit :=
  set_status_params CHECKING None None ;; run_cycles reqs.

End Updater.


(** * Vocabulary of the properties *)

Definition marker (s : snapshot) : bool := has_marker (finalized (disk s)).

(** Two identities name the same release iff channel and commit match. *)
Definition same_release (a b : BuildMetadata) : bool :=
  bool_decide (channel a = channel b) &&
  bool_decide (git_commit (openpilot a) = git_commit (openpilot b)).

(** The persisted target channel, or the running build's channel. *)
Definition resolved_target (s : snapshot) (bm : BuildMetadata) : string :=
  default (channel bm) (params s !! "UpdaterTargetBranch").

(** The status publications of a run, in order. *)
Fixpoint status_events (evs : list event) : list (UpdaterState * bool * bool) :=
  match evs with
  | [] => []
  | EvSetStatus st a r :: evs => (st, a, r) :: status_events evs
  | _ :: evs => status_events evs
  end.

(** The extract commands of a run, in order. *)
Fixpoint extract_events (evs : list event) : list (string * path * path) :=
  match evs with
  | [] => []
  | EvExtract c d sd :: evs => (c, d, sd) :: extract_events evs
  | _ :: evs => extract_events evs
  end.



(** ** Sample data *)

(** A metadata reader for the samples: the tree declares its channel and
    commit in two files. *)
Definition sample_build_metadata_of (d : tree) : option BuildMetadata :=
  match d !! "channel", d !! "commit" with
  | Some (File ch), Some (File c) =>
      Some {| channel := ch;
              openpilot := {| version := "0.1"; release_notes := "notes";
                              git_commit := c |} |}
  | _, _ => None
  end.

Definition sample_release (ch c : string) : tree :=
  {[ "channel" := File ch; "commit" := File c; "launch.sh" := Symlink "run" ]}.

Definition sample_metadata (ch c : string) : BuildMetadata :=
  {| channel := ch;
     openpilot := {| version := "0.1"; release_notes := "notes";
                     git_commit := c |} |}.

Definition sample_manifest : Manifest :=
  [ {| e_type := Some "path"; e_path := Some INSTALL_ROOT;
       e_caidx := Some "release.caidx" |} ].

(** A world of the samples: what the remote answers, what casync does,
    whether [run_cmd] checks the exit status, and the injected faults. *)
Definition sample_world_with (http : string → http_result)
    (extract : string → option tree → option tree → bool * option tree)
    (checks : bool) (rm_fault cp_fault : option (list string)) : world := {|
  API_HOST := "https://api.commadotai.com";
  AGNOS := false;
  build_metadata_of := sample_build_metadata_of;
  markdown_render := id;
  requests_get_json := http;
  casync_extract := extract;
  run_cmd_checks := checks;
  agnos_update_ok := true;
  rmtree_fault := rm_fault;
  copytree_fault := cp_fault;
|}.

Definition sample_http (ch c : string) : string → http_result :=
  λ _, JsonBody (Some (Some (sample_metadata ch c)))
                (Some (Some sample_manifest)).

Definition sample_extract (c : string)
    : string → option tree → option tree → bool * option tree :=
  λ _ _ _, (true, Some (sample_release "release" c)).

(** The remote serves release [c] on every channel, casync extracts it. *)
Definition sample_world (c : string) : world :=
  sample_world_with (sample_http "release" c) (sample_extract c) true None None.

(** The remote does not answer. *)
Definition sample_world_offline : world :=
  sample_world_with (λ _, RequestFailed) (sample_extract "c2") true None None.

(** The remote serves release [c]; casync is cut off after one file and
    exits with a non-zero status. *)
Definition sample_world_cut (c : string) (checks : bool) : world :=
  sample_world_with (sample_http "release" c)
    (λ _ _ _, (false, Some {[ "commit" := File c ]})) checks None None.

Definition sample_disk (base : tree) (fin : option tree) : filesys :=
  {| basedir := Some base; casync := None; casync_tmp := None;
     finalized := fin |}.

Definition sample_machine (base : tree) (fin : option tree) (r : UserRequest)
    : snapshot :=
  {| params := ∅; disk := sample_disk base fin; request := r |}.

(** The machine with the finalized directory replaced. *)
Definition set_finalized (d : option tree) (s : snapshot) : snapshot :=
  with_disk (write_dir FINALIZED d) s.

(** A tree with the sentinel created if it was not there ([touch]). *)
Definition marked (d : tree) : tree :=
  match d !! sentinel with
  | Some _ => d
  | None => <[sentinel := File ""]> d
  end.

(** The machine with the sentinel removed from the finalized directory. *)
Definition cleared (s : snapshot) : snapshot :=
  set_finalized (delete sentinel <$> finalized (disk s)) s.

(** A staging tree that itself carries an entry named like the sentinel. *)
Definition sample_marked_release (ch c : string) : tree :=
  <[sentinel := File ""]> (sample_release ch c).

Definition sample_staged (stage : tree) (fin : option tree) : snapshot :=
  {| params := ∅;
     disk := {| basedir := Some (sample_release "release" "c1");
                casync := Some stage; casync_tmp := Some ∅;
                finalized := fin |};
     request := NONE |}.

(** [sample_world] with [copytree] failing once [names] are copied. *)
Definition sample_world_copy_fault (c : string) (names : list string) : world :=
  sample_world_with (sample_http "release" c) (sample_extract c) true
    None (Some names).

(** The staging tree, if there is one, has no entry named like the
    sentinel. *)
Definition stage_free (s : snapshot) : Prop :=
  ∀ a, casync (disk s) = Some a → a !! sentinel = None.

Definition swap_safe (s : snapshot) : Prop :=
  marker s = false ∧ stage_free s.

Definition swap_ready (s : snapshot) : Prop :=
  swap_safe s ∧ is_Some (finalized (disk s)).

(** An entry the loop of [download_update] extracts. *)
Definition selected (e : entry) : bool :=
  match entry_selected e with
  | Ok true => true
  | _ => false
  end.

(** The extract commands the manifest asks for: one per selected entry, to
    the staging directory, seeded with the running installation. *)
Definition expected_extracts (m : Manifest) : list (string * path * path) :=
  omap (λ e, if selected e
             then (λ c, (c, CASYNC_PATH, BASEDIR)) <$> e_caidx e
             else None) m.

(** An entry that has the keys the loop reads. *)
Definition well_formed (e : entry) : Prop :=
  (e_type e = Some "path" → is_Some (e_path e)) ∧
  (selected e = true → is_Some (e_caidx e)).


(** [Path.mkdir(exist_ok=True)] on the machine. *)
Definition ensure_dir (p : path) (s : snapshot) : snapshot :=
  match read_dir (disk s) p with
  | Some _ => s
  | None => with_disk (write_dir p (Some ∅)) s
  end.




(** What [set_status_params] writes. *)
Definition status_puts (st : UpdaterState) (a r : bool) : list event :=
  [EvPut "UpdaterState" (state_value st);
   EvPut "UpdaterFetchAvailable" (if a then "1" else "0");
   EvPut "UpdateAvailable" (if r then "1" else "0");
   EvSetStatus st a r].

(** What a turn does up to and including the remote call: the default
    target written back if none is persisted, the Checking status, the
    current channel description, the fetch for the resolved target. *)
Definition checking_events (w : world) (s : snapshot) (bm : BuildMetadata)
    : list event :=
  match params s !! "UpdaterTargetBranch" with
  | Some _ => []
  | None => [EvPut "UpdaterTargetBranch" (channel bm)]
  end
  ++ status_puts CHECKING false false
  ++ [EvPut "UpdaterCurrentDescription"
        (version (openpilot bm) +:+ " / " +:+ channel bm);
      EvPut "UpdaterCurrentReleaseNotes"
        (markdown_render w (release_notes (openpilot bm)));
      EvFetch (resolved_target s bm)].

(** The identity the finalized directory declares, if it exists and
    declares one. *)
Definition finalized_identity (w : world) (s : snapshot)
    : option BuildMetadata :=
  finalized (disk s) ≫= build_metadata_of w.

Definition commit_differs (a b : BuildMetadata) : bool :=
  bool_decide (git_commit (openpilot a) ≠ git_commit (openpilot b)).

(** The availability flag the loop computes from the running build [bm],
    the remote target [rm] and the finalized directory. *)
Definition computed_available (w : world) (s : snapshot)
    (bm rm : BuildMetadata) : bool :=
  commit_differs bm rm &&
  negb (marker s &&
        match finalized_identity w s with
        | Some fm => negb (commit_differs fm rm)
        | None => false
        end).

(** The status publications that follow the remote call of a turn that
    does not download. *)
Definition check_verdict (w : world) (s : snapshot) (bm : BuildMetadata)
    : list (UpdaterState * bool * bool) :=
  match fetch_channel_data w (resolved_target s bm) with
  | Ok (rm, _) =>
      [(IDLE, computed_available w s bm rm, marker s);
       (IDLE, computed_available w s bm rm, marker s)]
  | Raise _ => [(FAILED, false, false)]
  end.

Definition TARGET_KEY : string := "UpdaterTargetBranch".

(** The values a run writes to the persisted target, in order. *)
Fixpoint target_writes (evs : list event) : list string :=
  match evs with
  | [] => []
  | EvPut k v :: evs =>
      if String.eqb k TARGET_KEY then v :: target_writes evs
      else target_writes evs
  | _ :: evs => target_writes evs
  end.

(** The channels a run fetches from the remote, in order. *)
Fixpoint fetches (evs : list event) : list string :=
  match evs with
  | [] => []
  | EvFetch ch :: evs => ch :: fetches evs
  | _ :: evs => fetches evs
  end.

(** A step that finds and leaves the persisted target at [t]. *)
Definition target_quiet (t : string) (ev : event) (x : snapshot) : Prop :=
  params x !! TARGET_KEY = Some t ∧ target_writes [ev] = [].

(** The same for a step that is not a fetch either. *)
Definition target_settled (t : string) (ev : event) (x : snapshot) : Prop :=
  target_quiet t ev x ∧ fetches [ev] = [].

Definition flags_false (x : snapshot) : Prop :=
  params x !! "UpdaterFetchAvailable" = Some "0" ∧
  params x !! "UpdateAvailable" = Some "0".

(** A status publication of a state other than [Idle] and [Failed] carries
    two false flags and has written them. *)
Definition publish_ok (ev : event) (x : snapshot) : Prop :=
  match ev with
  | EvSetStatus st a r =>
      st ∈ [CHECKING; DOWNLOADING; FINALIZING] →
      a = false ∧ r = false ∧
      params x !! "UpdaterState" = Some (state_value st) ∧ flags_false x
  | _ => True
  end.

(** The steps of a download or of a finalize: everything but parameter
    writes, status publications and the remote fetch. *)
Definition busy (ev : event) : bool :=
  match ev with
  | EvPut _ _ | EvSetStatus _ _ _ | EvFetch _ => false
  | _ => true
  end.

(** While a download or a finalize is at work, the published flags read
    false. *)
Definition busy_ok (ev : event) (x : snapshot) : Prop :=
  busy ev = true → flags_false x.

Definition status_law (ev : event) (x : snapshot) : Prop :=
  publish_ok ev x ∧ busy_ok ev x.

(** * Judgements about runs *)

(** ** Hoare triples over traces

    [hoare P m I Q E]: started where [P] holds, every step [m] records
    satisfies [I], a normal return satisfies [Q] and an exception [E]. *)
Definition hoare {A} (P : snapshot → Prop) (m : M A)
    (I : event → snapshot → Prop)
    (Q : A → snapshot → Prop) (E : exn → snapshot → Prop) : Prop :=
  ∀ s, P s →
    Forall (λ x, I x.1 x.2) (steps (m s)) ∧
    match outcome (m s) with
    | Ok a => Q a (final (m s))
    | Raise e => E e (final (m s))
    end.

(** ** Weakest preconditions

    [wp m Q s]: the run of [m] from [s] has a trace, an outcome and a final
    machine that satisfy [Q]. *)
Definition wp {A} (m : M A) (Q : trace → result A → snapshot → Prop)
    (s : snapshot) : Prop :=
  Q (steps (m s)) (outcome (m s)) (final (m s)).

(** ** Invariants

    [keeps P Inv I m]: started where [P] holds, every step of [m] satisfies
    [I] and [m] ends, normally or not, where [Inv] holds. *)
Definition keeps {A} (P Inv : snapshot → Prop) (I : event → snapshot → Prop)
    (m : M A) : Prop :=
  hoare P m I (λ _, Inv) (λ _, Inv).


(** * Vocabulary of the further properties *)

(** Everything of the machine that [download_update] has no business with:
    the parameter store, the running installation, the finalized directory
    and the pending request. *)
Definition outside_staging (s x : snapshot) : Prop :=
  params x = params s ∧ basedir (disk x) = basedir (disk s) ∧
  finalized (disk x) = finalized (disk s) ∧ request x = request s.

(** Everything of the machine but the finalized directory. *)
Definition outside_finalized (s x : snapshot) : Prop :=
  params x = params s ∧ basedir (disk x) = basedir (disk s) ∧
  casync (disk x) = casync (disk s) ∧
  casync_tmp (disk x) = casync_tmp (disk s) ∧ request x = request s.

(** The steps of a download: directory creations in the staging area and
    extractions into the staging directory, seeded with the running
    installation. *)
Definition download_event (ev : event) : Prop :=
  match ev with
  | EvMkdir CASYNC_TMPDIR | EvMkdir CASYNC_PATH
  | EvExtract _ CASYNC_PATH BASEDIR => True
  | _ => False
  end.

(** The steps of a finalize: flushes and changes of the finalized
    directory. *)
Definition finalize_event (ev : event) : Prop :=
  match ev with
  | EvSync | EvUnlink FINALIZED _ | EvTouch FINALIZED _
  | EvRemove FINALIZED _ | EvRmdir FINALIZED | EvMkdir FINALIZED
  | EvCopy CASYNC_PATH FINALIZED _ => True
  | _ => False
  end.

(** Machines with the same disk. *)
Definition same_disk (s x : snapshot) : Prop := disk x = disk s.

(** Machines with the same disk and the same persisted target. *)
Definition same_store (s x : snapshot) : Prop :=
  disk x = disk s ∧ params x !! TARGET_KEY = params s !! TARGET_KEY.

(** Machines that differ at most in the parameters other than the
    persisted target. *)
Definition same_inputs (s x : snapshot) : Prop :=
  same_store s x ∧ request x = request s.

(** ** Runs that do not tell two machines apart

    [alike P R m]: from two machines related by [P], [m] records the same
    events, has the same outcome and ends in machines related by [R]. *)
Definition alike {A} (P R : snapshot → snapshot → Prop) (m : M A) : Prop :=
  ∀ s x, P s x →
    events (m x) = events (m s) ∧ outcome (m x) = outcome (m s) ∧
    R (final (m s)) (final (m x)).

(** ** The mock remote (system/updated/tests/test_casync.py) *)

(** [create_remote_response]: the body the mock API serves for a channel.
    The [build_metadata] dictionary is kept as the record it is made from,
    and the manifest entry with the keys [download_update] reads (the
    digest is not among them). *)
Definition create_remote_response (channel : string)
    (build_metadata : BuildMetadata) (casync_caidx casync_digest : string)
    : BuildMetadata * Manifest :=
  (build_metadata,
   [ {| e_type := Some "path"; e_path := Some "/data/openpilot";
        e_caidx := Some casync_caidx |} ]).

(** A remote whose body carries build metadata of release [c] and a
    [null] manifest. *)
Definition sample_world_null_manifest (c : string) : world :=
  sample_world_with
    (λ _, JsonBody (Some (Some (sample_metadata "release" c))) (Some None))
    (sample_extract c) true None None.
(** * Reasoning about runs *)

Lemma bind_run {A B} (m : M A) (f : A → M B) s :
  (m ≫= f) s =
  match m s with
  | (t1, s1, Ok a) => match f a s1 with (t2, s2, r) => (t1 ++ t2, s2, r) end
  | (t1, s1, Raise e) => (t1, s1, Raise e)
  end.
Proof. reflexivity. Qed.

Lemma bind_run_ok {A B} (m : M A) (f : A → M B) s t1 s1 a :
  m s = (t1, s1, Ok a) →
  (m ≫= f) s = (t1 ++ steps (f a s1), final (f a s1), outcome (f a s1)).
Proof.
  intros H. rewrite bind_run, H. by destruct (f a s1) as [[? ?] ?].
Qed.

(** ** Rules for Hoare triples *)

Section Hoare.

Context {A B : Type}.
Implicit Types (P : snapshot → Prop) (I : event → snapshot → Prop).
Implicit Types (E : exn → snapshot → Prop).

Lemma hoare_ret P I (Q : A → snapshot → Prop) E (a : A) :
  (∀ s, P s → Q a s) → hoare P (mret a) I Q E.
Proof. intros H s Hs. split; [constructor | by apply H]. Qed.

Lemma hoare_raise P I (Q : A → snapshot → Prop) E e :
  (∀ s, P s → E e s) → hoare P (raise e) I Q E.
Proof. intros H s Hs. split; [constructor | by apply H]. Qed.

Lemma hoare_bind P I (Q1 : A → snapshot → Prop) (Q : B → snapshot → Prop) E
    (m : M A) (f : A → M B) :
  hoare P m I Q1 E →
  (∀ a, hoare (Q1 a) (f a) I Q E) →
  hoare P (m ≫= f) I Q E.
Proof.
  intros Hm Hf s Hs. rewrite bind_run.
  destruct (Hm s Hs) as [Ht Ho].
  destruct (m s) as [[t1 s1] [a|e]]; simpl in *; [|done].
  destruct (Hf a s1 Ho) as [Ht2 Ho2].
  destruct (f a s1) as [[t2 s2] r]; simpl in *.
  split; [by apply Forall_app|done].
Qed.

Lemma hoare_get_bind P I (Q : B → snapshot → Prop) E (f : snapshot → M B) :
  (∀ s0, P s0 → hoare (λ s, s = s0) (f s0) I Q E) →
  hoare P (get ≫= f) I Q E.
Proof.
  intros H s Hs. rewrite bind_run. simpl.
  destruct (H s Hs s eq_refl) as [Ht Ho].
  by destruct (f s s) as [[t2 s2] r].
Qed.

Lemma hoare_conseq P P' I I' (Q Q' : A → snapshot → Prop) E E' (m : M A) :
  hoare P' m I' Q' E' →
  (∀ s, P s → P' s) →
  (∀ ev s, I' ev s → I ev s) →
  (∀ a s, Q' a s → Q a s) →
  (∀ e s, E' e s → E e s) →
  hoare P m I Q E.
Proof.
  intros H HP HI HQ HE s Hs. destruct (H s (HP s Hs)) as [Ht Ho]. split.
  - eapply Forall_impl; [exact Ht|]. intros [ev x]; simpl. apply HI.
  - destruct (outcome (m s)); auto.
Qed.

End Hoare.

Lemma hoare_emit P I (Q : unit → snapshot → Prop) E ev f :
  (∀ s, P s → I ev (f s) ∧ Q tt (f s)) → hoare P (emit ev f) I Q E.
Proof.
  intros H s Hs. destruct (H s Hs). split; [|done].
  by repeat constructor.
Qed.

Lemma hoare_for_each {A} (Inv : snapshot → Prop) I E (l : list A)
    (body : A → M unit) :
  (∀ x, x ∈ l → hoare Inv (body x) I (λ _, Inv) E) →
  hoare Inv (for_each l body) I (λ _, Inv) E.
Proof.
  induction l as [|x l IH]; intros H.
  - by apply hoare_ret.
  - simpl. eapply hoare_bind.
    + apply H. by left.
    + intros []. apply IH. intros y Hy. apply H. by right.
Qed.

(** ** Rules for weakest preconditions *)

Lemma wp_bind {A B} (m : M A) (f : A → M B) Q s :
  wp m (λ t1 r s1,
        match r with
        | Ok a => wp (f a) (λ t2, Q (t1 ++ t2)) s1
        | Raise e => Q t1 (Raise e) s1
        end) s →
  wp (m ≫= f) Q s.
Proof.
  unfold wp, steps, outcome, final. rewrite bind_run.
  destruct (m s) as [[t1 s1] [a|e]]; simpl; [|done].
  by destruct (f a s1) as [[t2 s2] r].
Qed.

Lemma wp_ret {A} (a : A) Q s : Q [] (Ok a) s → wp (mret a) Q s.
Proof. done. Qed.

Lemma wp_raise {A} e (Q : trace → result A → snapshot → Prop) s :
  Q [] (Raise e) s → wp (raise e) Q s.
Proof. done. Qed.

Lemma wp_get Q s : Q [] (Ok s) s → wp get Q s.
Proof. done. Qed.

Lemma wp_emit ev f Q s : Q [(ev, f s)] (Ok tt) (f s) → wp (emit ev f) Q s.
Proof. done. Qed.

Lemma wp_set_user_request r Q s :
  Q [] (Ok tt) (with_request r s) → wp (set_user_request r) Q s.
Proof. done. Qed.

Lemma wp_mono {A} (m : M A) (Q Q' : trace → result A → snapshot → Prop) s :
  wp m Q s → (∀ t r s', Q t r s' → Q' t r s') → wp m Q' s.
Proof. unfold wp. auto. Qed.

Lemma wp_of_run {A} (m : M A) Q s t s' r :
  m s = (t, s', r) → Q t r s' → wp m Q s.
Proof. unfold wp. by intros ->. Qed.

Lemma run_eq_of_wp {A} (m : M A) s x :
  wp m (λ t r s', (t, s', r) = x) s → m s = x.
Proof. unfold wp. by destruct (m s) as [[? ?] ?]. Qed.

(** Symbolic execution of straight-line code. *)
Ltac wp_prim :=
  lazymatch goal with
  | |- wp (mbind _ _) _ _ => apply wp_bind
  | |- wp (mret _) _ _ => apply wp_ret
  | |- wp (ret _) _ _ => apply wp_ret
  | |- wp get _ _ => apply wp_get
  | |- wp (emit _ _) _ _ => apply wp_emit
  | |- wp (raise _) _ _ => apply wp_raise
  | |- wp (set_user_request _) _ _ => apply wp_set_user_request
  | |- wp (put _ _) _ _ => unfold put
  | |- wp (put_bool _ _) _ _ => unfold put_bool
  | |- wp sync _ _ => unfold sync
  | |- wp (set_status_params _ _ _) _ _ => unfold set_status_params
  | |- wp (set_channel_params _ _ _) _ _ => unfold set_channel_params
  | |- wp (set_current_channel_params _ _) _ _ =>
      unfold set_current_channel_params
  | |- wp (set_new_channel_params _ _) _ _ => unfold set_new_channel_params
  | |- wp (get_consistent_flag _) _ _ => unfold get_consistent_flag
  | |- wp (get_remote_channel_data _ _) _ _ => unfold get_remote_channel_data
  end.

Ltac wp_run := simpl; repeat (wp_prim; simpl).

Ltac wp_known H := wp_run; eapply wp_of_run; [H|]; wp_run.

(** ** Rules for invariants *)

Lemma keeps_elim {A} P Inv I (m : M A) s :
  keeps P Inv I m → P s →
  Forall (λ x, I x.1 x.2) (steps (m s)) ∧ Inv (final (m s)).
Proof.
  intros H Hs. destruct (H s Hs) as [Ht Ho]. split; [done|].
  by destruct (outcome (m s)).
Qed.

Lemma keeps_ret {A} P Inv I (a : A) :
  (∀ s, P s → Inv s) → keeps P Inv I (ret a).
Proof. intros H. by apply (hoare_ret P I). Qed.

Lemma keeps_raise {A} P Inv I e :
  (∀ s, P s → Inv s) → keeps P Inv I (raise (A:=A) e).
Proof. intros H. by apply hoare_raise. Qed.

Lemma keeps_emit P Inv I ev f :
  (∀ s, P s → I ev (f s) ∧ Inv (f s)) → keeps P Inv I (emit ev f).
Proof. intros H. by apply hoare_emit. Qed.

Lemma keeps_set_user_request P Inv I r :
  (∀ s, P s → Inv (with_request r s)) → keeps P Inv I (set_user_request r).
Proof. intros H s Hs. split; [constructor|by apply H]. Qed.

Lemma keeps_bind {A B} P Inv I (m : M A) (f : A → M B) :
  keeps P Inv I m → (∀ a, keeps Inv Inv I (f a)) → keeps P Inv I (m ≫= f).
Proof.
  intros Hm Hf s Hs. rewrite bind_run.
  destruct (Hm s Hs) as [Ht Ho].
  destruct (m s) as [[t1 s1] [a|e]]; simpl in *; [|done].
  destruct (Hf a s1 Ho) as [Ht2 Ho2].
  destruct (f a s1) as [[t2 s2] r]; simpl in *.
  split; [by apply Forall_app|done].
Qed.

Lemma keeps_get_bind {B} P Inv I (f : snapshot → M B) :
  (∀ s0, P s0 → keeps (λ s, s = s0) Inv I (f s0)) →
  keeps P Inv I (get ≫= f).
Proof. intros H. apply hoare_get_bind. exact H. Qed.

Lemma keeps_for_each {A} P Inv I (l : list A) (body : A → M unit) :
  (∀ s, P s → Inv s) →
  (∀ x, keeps Inv Inv I (body x)) →
  keeps P Inv I (for_each l body).
Proof.
  intros HP Hb. eapply hoare_conseq;
    [apply (hoare_for_each Inv I (λ _, Inv)); intros; apply Hb|..]; auto.
Qed.

(** Walks through a procedure down to its [emit]s; the side conditions are
    left to the caller. *)
Ltac keeps_step :=
  lazymatch goal with
  | |- keeps _ _ _ (mbind _ get) => apply keeps_get_bind; intros ? ?
  | |- keeps _ _ _ (mbind _ _) => apply keeps_bind; [|intros ?]
  | |- keeps _ _ _ (mret _) => apply keeps_ret
  | |- keeps _ _ _ (ret _) => apply keeps_ret
  | |- keeps _ _ _ (raise _) => apply keeps_raise
  | |- keeps _ _ _ (emit _ _) => apply keeps_emit
  | |- keeps _ _ _ (set_user_request _) => apply keeps_set_user_request
  | |- keeps _ _ _ (for_each _ _) => apply keeps_for_each; [|intros ?]
  | |- keeps _ _ _ (match ?x with _ => _ end) => destruct x eqn:?
  | |- keeps _ _ _ (sync) => unfold sync
  | |- keeps _ _ _ (put _ _) => unfold put
  | |- keeps _ _ _ (put_bool _ _) => unfold put_bool
  | |- keeps _ _ _ (touch _ _) => unfold touch
  | |- keeps _ _ _ (unlink_missing_ok _ _) => unfold unlink_missing_ok
  | |- keeps _ _ _ (remove_entry _ _) => unfold remove_entry
  | |- keeps _ _ _ (rmtree _ _) => unfold rmtree
  | |- keeps _ _ _ (copy_entry _ _ _) => unfold copy_entry
  | |- keeps _ _ _ (copytree_symlinks _ _ _) => unfold copytree_symlinks
  | |- keeps _ _ _ (mkdir_exist_ok _) => unfold mkdir_exist_ok
  | |- keeps _ _ _ (get_build_metadata _ _) => unfold get_build_metadata
  | |- keeps _ _ _ (get_consistent_flag _) => unfold get_consistent_flag
  | |- keeps _ _ _ (get_remote_channel_data _ _) =>
      unfold get_remote_channel_data
  | |- keeps _ _ _ (run_cmd_extract _ _ _ _) => unfold run_cmd_extract
  | |- keeps _ _ _ (handle_agnos_update _ _) => unfold handle_agnos_update
  | |- keeps _ _ _ (set_consistent_flag _) => unfold set_consistent_flag
  | |- keeps _ _ _ (set_status_params _ _ _) => unfold set_status_params
  | |- keeps _ _ _ (set_channel_params _ _ _) => unfold set_channel_params
  | |- keeps _ _ _ (set_current_channel_params _ _) =>
      unfold set_current_channel_params
  | |- keeps _ _ _ (set_new_channel_params _ _) =>
      unfold set_new_channel_params
  | |- keeps _ _ _ (check_update_available _ _ _) =>
      unfold check_update_available
  | |- keeps _ _ _ (download_entry _ _) => unfold download_entry
  | |- keeps _ _ _ (download_update _ _) => unfold download_update
  | |- keeps _ _ _ (finalize_update _) => unfold finalize_update
  | |- keeps _ _ _ (fetch_and_finalize _ _) => unfold fetch_and_finalize
  | |- keeps _ _ _ (handle_remote _ _ _ _ _) => unfold handle_remote
  end.

Ltac keeps_walk := cbn beta iota; repeat (keeps_step; cbn beta iota).

(** * Identity comparison *)

Lemma get_build_metadata_run w p s d bm :
  read_dir (disk s) p = Some d →
  build_metadata_of w d = Some bm →
  get_build_metadata w p s = ([], s, Ok bm).
Proof.
  intros Hd Hbm. unfold get_build_metadata. rewrite bind_run. simpl.
  by rewrite Hd, Hbm.
Qed.

Lemma check_update_available_run w p other s d bm :
  read_dir (disk s) p = Some d →
  build_metadata_of w d = Some bm →
  check_update_available w p (Some other) s =
  ([], s, Ok (bool_decide (git_commit (openpilot bm)
                           ≠ git_commit (openpilot other)))).
Proof.
  intros Hd Hbm. unfold check_update_available.
  rewrite (bind_run_ok _ _ _ _ _ _ (get_build_metadata_run _ _ _ _ _ Hd Hbm)).
  by rewrite bool_decide_eq_false_2 by (intros H; by apply H).
Qed.

(** C1, the code at the failing input.  The running build is on channel
    "release", the remote target on "nightly", both at commit c1: the two
    identities differ in their channel, yet [check_update_available]
    answers [False], because the channel test compares the running build's
    channel with itself. *)
Theorem check_update_available_ignores_channel :
  let current := sample_metadata "release" "c1" in
  let remote := sample_metadata "nightly" "c1" in
  let s := sample_machine (sample_release "release" "c1") None NONE in
  build_metadata_of (sample_world "c1") (sample_release "release" "c1")
    = Some current ∧
  same_release current remote = false ∧
  outcome (check_update_available (sample_world "c1") BASEDIR (Some remote) s)
    = Ok false.
Proof. by vm_compute. Qed.

(** * The finalize protocol *)

Lemma set_finalized_same s :
  set_finalized (finalized (disk s)) s = s.
Proof. by destruct s as [? [] ?]. Qed.

Lemma elem_of_names_of (d : tree) k : k ∈ names_of d ↔ is_Some (d !! k).
Proof.
  unfold names_of. rewrite list_elem_of_fmap. split.
  - intros ([k' e] & -> & H). apply elem_of_map_to_list in H. by exists e.
  - intros [e H]. exists (k, e). split; [done|]. by apply elem_of_map_to_list.
Qed.

Lemma NoDup_names_of (d : tree) : NoDup (names_of d).
Proof. apply NoDup_fst_map_to_list. Qed.

Lemma has_marker_false (d : tree) :
  d !! sentinel = None → has_marker (Some d) = false.
Proof.
  intros H. simpl. apply bool_decide_eq_false_2. rewrite H. by intros [? ?].
Qed.

Lemma has_marker_true (d : tree) e :
  d !! sentinel = Some e → has_marker (Some d) = true.
Proof. intros H. simpl. apply bool_decide_eq_true_2. by exists e. Qed.

(** ** The two loops *)

Lemma remove_loop_run names : ∀ s d,
  finalized (disk s) = Some d →
  NoDup names →
  (∀ n, n ∈ names → is_Some (d !! n)) →
  ∃ t d',
    for_each names (remove_entry FINALIZED) s
      = (t, set_finalized (Some d') s, Ok tt) ∧
    t.*1 = EvRemove FINALIZED <$> names ∧
    d' ⊆ d ∧
    Forall (λ x, ∃ d'', x.2 = set_finalized (Some d'') s ∧ d'' ⊆ d) t.
Proof.
  induction names as [|n names IH]; intros s d Hd Hnd Hin.
  - exists [], d. split_and!; [|done|done|constructor].
    simpl. unfold ret. by rewrite <- Hd, set_finalized_same.
  - apply NoDup_cons in Hnd as [Hn Hnd].
    destruct (Hin n) as [e He]; [by left|].
    set (s1 := set_finalized (Some (delete n d)) s).
    destruct (IH s1 (delete n d)) as (t & d' & Hrun & Hev & Hsub & Hall);
      [done|done|..].
    { intros k Hk. rewrite lookup_delete_ne by (intros ->; done).
      apply Hin. by right. }
    exists ((EvRemove FINALIZED n, s1) :: t), d'.
    assert (delete n d ⊆ d) as Hdel by apply delete_subseteq.
    split_and!.
    + cbn [for_each]. rewrite bind_run. unfold remove_entry at 1.
      rewrite bind_run. simpl. rewrite Hd, He. simpl.
      change (with_disk _ s) with s1. by rewrite Hrun.
    + by rewrite !fmap_cons, Hev.
    + by etrans.
    + constructor.
      * exists (delete n d). done.
      * eapply Forall_impl; [exact Hall|]. intros [ev x] (d'' & -> & Hs).
        exists d''. split; [done|by etrans].
Qed.


(** ** The phases of [finalize_update] *)

Lemma set_consistent_flag_false_run s :
  (∀ d, finalized (disk s) = Some d → d !! sentinel ≠ Some Dir) →
  set_consistent_flag false s =
  ([(EvSync, s); (EvUnlink FINALIZED sentinel, cleared s);
    (EvSync, cleared s)], cleared s, Ok tt).
Proof.
  intros Hdir. apply run_eq_of_wp.
  unfold set_consistent_flag, unlink_missing_ok, cleared. wp_run. simpl.
  destruct (finalized (disk s)) as [d|] eqn:Hd; simpl.
  - destruct (d !! sentinel) as [e|] eqn:He.
    + destruct e; [by wp_run|by wp_run|by destruct (Hdir d eq_refl)].
    + wp_run. simpl. rewrite (delete_id d sentinel He), <- Hd.
      by rewrite set_finalized_same.
  - wp_run. simpl. rewrite <- Hd. by rewrite set_finalized_same.
Qed.

Lemma set_consistent_flag_true_run s b :
  finalized (disk s) = Some b →
  set_consistent_flag true s =
  ([(EvSync, s); (EvTouch FINALIZED sentinel, set_finalized (Some (marked b)) s);
    (EvSync, set_finalized (Some (marked b)) s)],
   set_finalized (Some (marked b)) s, Ok tt).
Proof.
  intros Hb. apply run_eq_of_wp.
  unfold set_consistent_flag, touch, marked. wp_run. rewrite Hb.
  destruct (b !! sentinel) as [e|] eqn:He; wp_run; [|done].
  by rewrite <- Hb, set_finalized_same.
Qed.

Lemma rmtree_run w s d :
  rmtree_fault w = None →
  finalized (disk s) = Some d →
  ∃ t,
    rmtree w FINALIZED s
      = (t ++ [(EvRmdir FINALIZED, set_finalized None s)],
         set_finalized None s, Ok tt) ∧
    t.*1 = EvRemove FINALIZED <$> names_of d ∧
    Forall (λ x, ∃ d', x.2 = set_finalized (Some d') s ∧ d' ⊆ d) t.
Proof.
  intros Hw Hd.
  destruct (remove_loop_run (names_of d) s d Hd (NoDup_names_of d))
    as (t & d' & Hrun & Hev & _ & Hall).
  { intros n. apply elem_of_names_of. }
  exists t. split_and!; [|done|done].
  apply run_eq_of_wp. unfold rmtree. wp_run. rewrite Hd, Hw.
  wp_known ltac:(exact Hrun). done.
Qed.



(** ** The marker during the swap *)



Lemma marker_set_finalized o s : marker (set_finalized o s) = has_marker o.
Proof. reflexivity. Qed.

Lemma marker_cleared s : marker (cleared s) = false.
Proof.
  unfold cleared. rewrite marker_set_finalized.
  destruct (finalized (disk s)) as [d|]; [|done].
  apply has_marker_false, lookup_delete_eq.
Qed.


Lemma marked_has_marker (a : tree) : has_marker (Some (marked a)) = true.
Proof.
  unfold marked. destruct (a !! sentinel) as [e|] eqn:Hs.
  - by apply (has_marker_true _ e).
  - apply (has_marker_true _ (File "")), lookup_insert_eq.
Qed.




(** * Failure during the swap *)

Lemma wp_bind_keeps {A B} P Inv I (m : M A) (f : A → M B) Q s :
  keeps P Inv I m →
  P s →
  (∀ t a x, Forall (λ y, I y.1 y.2) t → Inv x →
            wp (f a) (λ t2, Q (t ++ t2)) x) →
  (∀ t e x, Forall (λ y, I y.1 y.2) t → Inv x → Q t (Raise e) x) →
  wp (m ≫= f) Q s.
Proof.
  intros Hk Hs Hok Hraise. apply wp_bind. unfold wp at 1.
  destruct (Hk s Hs) as [Ht Ho].
  destruct (outcome (m s)); auto.
Qed.

Lemma marker_false_lookup s d :
  marker s = false → finalized (disk s) = Some d → d !! sentinel = None.
Proof.
  unfold marker. intros Hm Hd. rewrite Hd in Hm. simpl in Hm.
  apply bool_decide_eq_false_1 in Hm. by apply eq_None_not_Some.
Qed.

Lemma swap_safe_remove s d n :
  swap_safe s → finalized (disk s) = Some d →
  swap_safe (set_finalized (Some (delete n d)) s).
Proof.
  intros [Hm Hs] Hd. split; [|exact Hs].
  rewrite marker_set_finalized. apply has_marker_false.
  eapply lookup_weaken_None; [|apply delete_subseteq].
  by eapply marker_false_lookup.
Qed.

Lemma swap_safe_gone s : swap_safe s → swap_safe (set_finalized None s).
Proof. intros [Hm Hs]. by split. Qed.

Lemma swap_safe_mkdir s : swap_safe s → swap_ready (set_finalized (Some ∅) s).
Proof. intros [Hm Hs]. split; [by split|]. simpl. by eexists. Qed.

Lemma swap_ready_copy s a b n e :
  swap_ready s → casync (disk s) = Some a → finalized (disk s) = Some b →
  a !! n = Some e →
  swap_ready (set_finalized (Some (<[n:=e]> b)) s).
Proof.
  intros [[Hm Hs] _] Ha Hb He. split; [split; [|exact Hs]|by eexists].
  rewrite marker_set_finalized. apply has_marker_false.
  destruct (decide (n = sentinel)) as [->|Hne].
  - rewrite (Hs a Ha) in He. discriminate.
  - rewrite lookup_insert_ne by done. by eapply marker_false_lookup.
Qed.

Lemma keeps_rmtree w :
  keeps swap_safe swap_safe (λ _ _, True) (rmtree w FINALIZED).
Proof.
  unfold rmtree. keeps_walk; intros s ?; subst; simpl in *; try done;
    try (split; [done|]);
    first [by apply swap_safe_remove | by apply swap_safe_gone].
Qed.

Lemma keeps_copy_loop names :
  keeps swap_ready swap_ready (λ _ _, True)
    (for_each names (copy_entry CASYNC_PATH FINALIZED)).
Proof.
  keeps_walk; intros s ?; subst; simpl in *; try done.
  split; [done|]. by eapply swap_ready_copy.
Qed.

Lemma wp_keeps {A} P Inv I (m : M A) Q s :
  keeps P Inv I m →
  P s →
  (∀ t r x, Forall (λ y, I y.1 y.2) t → Inv x → Q t r x) →
  wp m Q s.
Proof.
  intros Hk Hs HQ. unfold wp. destruct (Hk s Hs) as [Ht Ho].
  apply HQ; [done|]. by destruct (outcome (m s)).
Qed.

Lemma copy_then_mark_wp w s :
  swap_safe s →
  wp (copytree_symlinks w CASYNC_PATH FINALIZED ≫= λ _, set_consistent_flag true)
     (λ _ r x, ∀ e, r = Raise e → marker x = false) s.
Proof.
  intros Hs. unfold copytree_symlinks. wp_run.
  destruct (casync (disk s)) as [a|] eqn:Ha; [|wp_run; intros; apply Hs].
  destruct (finalized (disk s)) as [b|] eqn:Hb; [wp_run; intros; apply Hs|].
  wp_run. pose proof (swap_safe_mkdir s Hs) as Hready.
  destruct (copytree_fault w) as [names|].
  - eapply wp_bind_keeps; [apply keeps_copy_loop|exact Hready|..].
    + intros t [] x _ Hx. wp_run. intros _ _. apply Hx.
    + intros t e x _ Hx _ _. apply Hx.
  - eapply wp_keeps; [apply keeps_copy_loop|exact Hready|].
    intros t [[]|e] x _ Hx; [|intros _ _; apply Hx].
    destruct Hx as [_ [b Hb']].
    wp_known ltac:(exact (set_consistent_flag_true_run x b Hb')).
    discriminate.
Qed.

Lemma swap_safe_cleared s : stage_free s → swap_safe (cleared s).
Proof. intros H. split; [apply marker_cleared|exact H]. Qed.

Lemma finalize_update_raise_wp w s :
  stage_free s →
  wp (finalize_update w)
     (λ t r x, ∀ e, r = Raise e → EvUnlink FINALIZED sentinel ∈ t.*1 →
                    marker x = false) s.
Proof.
  intros Hfree. unfold finalize_update.
  assert ((∃ d, finalized (disk s) = Some d ∧ d !! sentinel = Some Dir) ∨
          (∀ d, finalized (disk s) = Some d → d !! sentinel ≠ Some Dir))
    as [(d & Hd & He)|Hdir'].
  { destruct (finalized (disk s)) as [d|]; [|by right].
    destruct (decide (d !! sentinel = Some Dir)); [left; eauto|right].
    by intros ? [= <-]. }
  - unfold set_consistent_flag, unlink_missing_ok. wp_run. rewrite Hd, He.
    wp_run. intros e _ Hin. apply list_elem_of_singleton in Hin. discriminate.
  - wp_known ltac:(exact (set_consistent_flag_false_run s Hdir')).
    pose proof (swap_safe_cleared s Hfree) as Hc.
    destruct (bool_decide _).
    + eapply wp_keeps; [apply keeps_rmtree|exact Hc|].
      intros t [[]|e] x _ Hx; [|intros _ _ _; apply Hx].
      eapply wp_mono; [by apply copy_then_mark_wp|].
      simpl. by eauto.
    + apply wp_ret. eapply wp_mono; [by apply copy_then_mark_wp|].
      simpl. by eauto.
Qed.

(** C3, as amended.  Let the staging tree have no entry named like the
    sentinel, and let the name of the marker not be taken by a directory
    in the finalized directory, so that clearing the marker goes through.
    If [finalize_update] raises (the exception then comes from [rmtree] or
    [copytree], the only later steps that can fail), the run has begun
    with flush, unlink of the marker, flush: the marker was cleared before
    any change of the finalized directory.  The marker is absent in the
    state the run leaves behind and [get_consistent_flag] on the finalized
    directory answers [False]. *)
Theorem finalize_update_failure_leaves_marker_absent w s e :
  stage_free s →
  (∀ d, finalized (disk s) = Some d → d !! sentinel ≠ Some Dir) →
  outcome (finalize_update w s) = Raise e →
  [EvSync; EvUnlink FINALIZED sentinel; EvSync]
    `prefix_of` events (finalize_update w s) ∧
  marker (final (finalize_update w s)) = false ∧
  outcome (get_consistent_flag FINALIZED (final (finalize_update w s)))
    = Ok false.
Proof.
  intros Hfree Hdir Hraise.
  assert ([EvSync; EvUnlink FINALIZED sentinel; EvSync]
            `prefix_of` events (finalize_update w s)) as Hpre.
  { unfold finalize_update.
    rewrite (bind_run_ok _ _ _ _ _ _ (set_consistent_flag_false_run s Hdir)).
    cbn [events fst]. rewrite fmap_app. by apply prefix_app_r. }
  assert (marker (final (finalize_update w s)) = false) as Hm.
  { eapply (finalize_update_raise_wp w s Hfree); [exact Hraise|].
    destruct Hpre as [k Hk]. unfold events in Hk. unfold steps.
    rewrite Hk. apply elem_of_cons. right. by left. }
  split_and!; [exact Hpre|exact Hm|].
  unfold get_consistent_flag. rewrite bind_run. simpl.
  by rewrite <- Hm.
Qed.

(** Witness of [finalize_update_failure_leaves_marker_absent]: [copytree]
    fails after one entry of a clean staging tree. *)
Lemma finalize_update_failure_leaves_marker_absent_witness :
  let w := sample_world_copy_fault "c2" ["commit"] in
  let s := sample_staged (sample_release "release" "c2")
             (Some (sample_marked_release "release" "c1")) in
  outcome (finalize_update w s) = Raise OSError ∧
  marker (final (finalize_update w s)) = false ∧
  outcome (get_consistent_flag FINALIZED (final (finalize_update w s)))
    = Ok false.
Proof.
  intros w s.
  assert (outcome (finalize_update w s) = Raise OSError) as Ho
    by (vm_compute; reflexivity).
  split; [exact Ho|].
  apply (finalize_update_failure_leaves_marker_absent w s OSError).
  - intros a [= <-]. vm_compute. reflexivity.
  - intros d [= <-]. vm_compute. discriminate.
  - exact Ho.
Defined.

(** C3, as stated, fails: when the staging tree carries an entry named like
    the sentinel and [copytree] breaks after copying it, the marker is
    present on a partial finalized directory. *)
Lemma finalize_update_failure_with_marker :
  let w := sample_world_copy_fault "c2" [sentinel; "commit"] in
  let s := sample_staged (sample_marked_release "release" "c2")
             (Some (sample_marked_release "release" "c1")) in
  outcome (finalize_update w s) = Raise OSError ∧
  bool_decide (EvUnlink FINALIZED sentinel ∈ events (finalize_update w s))
    = true ∧
  finalized (disk (final (finalize_update w s)))
    ≠ Some (sample_marked_release "release" "c2") ∧
  outcome (get_consistent_flag FINALIZED (final (finalize_update w s)))
    = Ok true.
Proof.
  split_and!; [by vm_compute|by vm_compute| |by vm_compute].
  intros H. apply (f_equal (λ o, o ≫= (.!! "channel"))) in H.
  vm_compute in H. discriminate.
Qed.

(** * The staging download *)

Lemma mkdir_exist_ok_run p s :
  ∃ t, mkdir_exist_ok p s = (t, ensure_dir p s, Ok tt) ∧
       extract_events t.*1 = [].
Proof.
  unfold mkdir_exist_ok, ensure_dir. rewrite bind_run. simpl.
  destruct (read_dir (disk s) p); eexists; split; reflexivity.
Qed.

Lemma run_cmd_extract_run w c dst seed s :
  let x := casync_extract w c (read_dir (disk s) dst) (read_dir (disk s) seed) in
  let s1 := with_disk (write_dir dst x.2) s in
  run_cmd_extract w c dst seed s =
  ([(EvExtract c dst seed, s1)], s1,
   if negb x.1 && run_cmd_checks w then Raise CalledProcessError else Ok tt).
Proof.
  intros x s1. apply run_eq_of_wp. unfold run_cmd_extract. wp_run.
  subst s1 x.
  destruct (casync_extract w c (read_dir (disk s) dst) (read_dir (disk s) seed))
    as [ok d]. wp_run.
  destruct (negb ok && run_cmd_checks w); by wp_run.
Qed.

Lemma extract_events_app l1 l2 :
  extract_events (l1 ++ l2) = extract_events l1 ++ extract_events l2.
Proof.
  induction l1 as [|ev l1 IH]; [done|]. destruct ev; simpl; by rewrite ?IH.
Qed.

Lemma download_entry_run w e s :
  download_entry w e s =
  match entry_selected e with
  | Raise x => ([], s, Raise x)
  | Ok false => ([], s, Ok tt)
  | Ok true =>
      match e_caidx e with
      | None => ([], s, Raise KeyError)
      | Some c => run_cmd_extract w c CASYNC_PATH BASEDIR s
      end
  end.
Proof.
  unfold download_entry.
  destruct (entry_selected e) as [[|]|x]; [|done|done].
  by destruct (e_caidx e).
Qed.





(** * One turn of the loop *)


(** Reads a literal key out of the parameter store a run has built. *)
Ltac params_lookup :=
  cbn [String.append];
  repeat first
    [ rewrite lookup_insert_eq
    | rewrite lookup_insert_ne by done ].




(** ** Ready-suppression *)

Lemma same_release_commit a b :
  same_release a b = true → commit_differs a b = false.
Proof.
  unfold same_release, commit_differs. intros [_ H]%andb_true_iff.
  apply bool_decide_eq_true_1 in H. apply bool_decide_eq_false_2.
  intros Hne. by apply Hne.
Qed.

(** C6.  In a turn that finds the finalized directory marked ready and
    declaring the same release (channel and commit) as the remote target,
    both [Idle] publications carry [update_available = False] and
    [update_ready = True], nothing is downloaded and the disk is left as it
    is, whatever the running build is. *)
Theorem cycle_ready_suppression w s d bm fd fm rm man :
  basedir (disk s) = Some d →
  build_metadata_of w d = Some bm →
  finalized (disk s) = Some fd →
  is_Some (fd !! sentinel) →
  build_metadata_of w fd = Some fm →
  fetch_channel_data w (resolved_target s bm) = Ok (rm, man) →
  same_release fm rm = true →
  let r := cycle w s in
  outcome r = Ok tt ∧
  events r = checking_events w s bm
             ++ status_puts IDLE false true ++ status_puts IDLE false true ∧
  disk (final r) = disk s ∧
  params (final r) !! "UpdaterState" = Some (state_value IDLE) ∧
  params (final r) !! "UpdaterFetchAvailable" = Some "0" ∧
  params (final r) !! "UpdateAvailable" = Some "1".
Proof.
  intros Hd Hbm Hf [e He] Hfm Hx Hsame r. subst r.
  apply same_release_commit in Hsame. unfold commit_differs in Hsame.
  enough (wp (cycle w) (λ t r s',
    r = Ok tt ∧
    t.*1 = checking_events w s bm
           ++ status_puts IDLE false true ++ status_puts IDLE false true ∧
    disk s' = disk s ∧
    params s' !! "UpdaterState" = Some (state_value IDLE) ∧
    params s' !! "UpdaterFetchAvailable" = Some "0" ∧
    params s' !! "UpdateAvailable" = Some "1") s) as H by exact H.
  unfold cycle, handle_remote. wp_run.
  wp_known ltac:(exact (get_build_metadata_run w BASEDIR s d bm Hd Hbm)).
  unfold checking_events, resolved_target in *.
  destruct (params s !! "UpdaterTargetBranch") as [tc|] eqn:Ht; simpl in Hx;
    wp_run; rewrite Hx; wp_run;
    (wp_known ltac:(by eapply check_update_available_run));
    rewrite Hf, (has_marker_true fd e He);
    (wp_known ltac:(by eapply check_update_available_run));
    rewrite Hsame; wp_run;
    by (split_and!; [done|done|done|params_lookup..]).
Qed.

(** Witness of [cycle_ready_suppression]: the device runs c1, release c2
    is finalized and marked, the remote serves c2. *)
Lemma cycle_ready_suppression_witness :
  let w := sample_world "c2" in
  let s := sample_machine (sample_release "release" "c1")
             (Some (sample_marked_release "release" "c2")) NONE in
  commit_differs (sample_metadata "release" "c1")
                 (sample_metadata "release" "c2") = true ∧
  status_events (events (cycle w s))
    = [(CHECKING, false, false); (IDLE, false, true); (IDLE, false, true)] ∧
  disk (final (cycle w s)) = disk s.
Proof.
  intros w s.
  destruct (cycle_ready_suppression w s
              (sample_release "release" "c1") (sample_metadata "release" "c1")
              (sample_marked_release "release" "c2")
              (sample_metadata "release" "c2")
              (sample_metadata "release" "c2") (Some sample_manifest))
    as (_ & Hev & Hd & _);
    [reflexivity|reflexivity|reflexivity|
    |reflexivity|reflexivity|reflexivity|].
  - exists (File ""). reflexivity.
  - split_and!; [reflexivity| |exact Hd]. rewrite Hev. reflexivity.
Defined.

(** ** Check-only turns *)

Lemma finalized_identity_inv w s fm :
  finalized_identity w s = Some fm →
  ∃ fd, finalized (disk s) = Some fd ∧ build_metadata_of w fd = Some fm.
Proof.
  unfold finalized_identity. destruct (finalized (disk s)) as [fd|]; [|done].
  simpl. intros H. by exists fd.
Qed.

Lemma cycle_check_only_run w s d bm :
  request s = CHECK →
  basedir (disk s) = Some d →
  build_metadata_of w d = Some bm →
  (∀ rm man, fetch_channel_data w (resolved_target s bm) = Ok (rm, man) →
             marker s = true → is_Some (finalized_identity w s)) →
  let r := cycle w s in
  outcome r = Ok tt ∧
  status_events (events r) = (CHECKING, false, false) :: check_verdict w s bm ∧
  disk (final r) = disk s ∧
  params (final r) !! "UpdaterTargetBranch" = Some (resolved_target s bm).
Proof.
  intros Hreq Hd Hbm Hfin r. subst r.
  enough (wp (cycle w) (λ t r s',
    r = Ok tt ∧
    status_events t.*1 = (CHECKING, false, false) :: check_verdict w s bm ∧
    disk s' = disk s ∧
    params s' !! "UpdaterTargetBranch" = Some (resolved_target s bm)) s) as H
    by exact H.
  unfold cycle, handle_remote. wp_run.
  wp_known ltac:(exact (get_build_metadata_run w BASEDIR s d bm Hd Hbm)).
  rewrite (bool_decide_eq_true_2 _ Hreq).
  unfold check_verdict, computed_available, commit_differs, resolved_target,
    marker in *.
  destruct (params s !! "UpdaterTargetBranch") as [tc|] eqn:Ht; simpl;
    wp_run;
    (destruct (fetch_channel_data w _) as [[rm man]|x] eqn:Hx; wp_run;
     [|by (split_and!; [done|done|done|params_lookup])]);
    (wp_known ltac:(by eapply check_update_available_run)).
  all: destruct (has_marker (finalized (disk s))) eqn:Hm.
  all: try (destruct (Hfin _ _ eq_refl eq_refl) as [fm Hfm]; rewrite Hfm;
            destruct (finalized_identity_inv w s fm Hfm) as (fd & Hfd & Hfdm);
            wp_known ltac:(by eapply check_update_available_run);
            destruct (bool_decide (git_commit (openpilot fm) ≠ _))).
  all: destruct (bool_decide (git_commit (openpilot bm) ≠ _)); wp_run.
  all: by (split_and!; [done|done|done|params_lookup]).
Qed.

Lemma no_extract_events (t : trace) :
  Forall (λ y, ∀ c a b, y.1 ≠ EvExtract c a b) t → extract_events t.*1 = [].
Proof.
  induction 1 as [|[ev x] t Hev _ IH]; [done|].
  rewrite fmap_cons. destruct ev; simpl in *; try done.
  by destruct (Hev caidx dst seed).
Qed.

Lemma cycle_check_only_frame w s :
  request s = CHECK →
  keeps (λ x, x = s) (λ x, disk x = disk s)
    (λ ev x, disk x = disk s ∧ ∀ c a b, ev ≠ EvExtract c a b)
    (cycle w).
Proof.
  intros Hreq. unfold cycle. apply keeps_get_bind. intros s0 ->.
  rewrite (bool_decide_eq_true_2 _ Hreq).
  keeps_walk; intros ? ?; subst; simpl in *; done.
Qed.

Lemma check_verdict_same_disk w s s' bm :
  disk s' = disk s →
  resolved_target s' bm = resolved_target s bm →
  check_verdict w s' bm = check_verdict w s bm.
Proof.
  intros Hd Ht.
  unfold check_verdict, computed_available, finalized_identity, marker.
  by rewrite Hd, Ht.
Qed.

Lemma cycle_check_only_raise w s d bm rm man :
  request s = CHECK →
  basedir (disk s) = Some d →
  build_metadata_of w d = Some bm →
  fetch_channel_data w (resolved_target s bm) = Ok (rm, man) →
  marker s = true →
  finalized_identity w s = None →
  let r := cycle w s in
  outcome r = Raise InvalidBuildMetadata ∧
  status_events (events r) = [(CHECKING, false, false)] ∧
  disk (final r) = disk s ∧
  request (final r) = CHECK ∧
  params (final r) !! "UpdaterTargetBranch" = Some (resolved_target s bm).
Proof.
  intros Hreq Hd Hbm Hx Hm Hnone r. subst r.
  enough (wp (cycle w) (λ t r s',
    r = Raise InvalidBuildMetadata ∧
    status_events t.*1 = [(CHECKING, false, false)] ∧
    disk s' = disk s ∧ request s' = CHECK ∧
    params s' !! "UpdaterTargetBranch" = Some (resolved_target s bm)) s) as H
    by exact H.
  unfold cycle, handle_remote. wp_run.
  wp_known ltac:(exact (get_build_metadata_run w BASEDIR s d bm Hd Hbm)).
  rewrite (bool_decide_eq_true_2 _ Hreq).
  unfold resolved_target, marker, finalized_identity in *.
  destruct (params s !! "UpdaterTargetBranch") as [tc|] eqn:Ht; simpl in Hx;
    wp_run; rewrite Hx; wp_run;
    (wp_known ltac:(by eapply check_update_available_run));
    rewrite Hm; unfold check_update_available, get_build_metadata; wp_run;
    (destruct (finalized (disk s)) as [fd|]; [simpl in Hnone; rewrite Hnone|]);
    wp_run;
    by (split_and!; [done|done|done|done|params_lookup]).
Qed.

(** C8, as amended.  A turn that starts with a pending check-only request
    leaves the staging directory, the finalized directory and the marker
    as they are at every step, even when it fails, and runs no extract
    command.  Let the running build's metadata be readable.  If the remote
    fetch fails, the turn completes and publishes [Checking] and then
    [Failed] with both flags false.  If it succeeds and the marker is not
    set or the finalized directory's metadata is readable, the turn
    completes and publishes [Checking] and then [Idle], twice, with the
    computed flags.  If it succeeds while the marker is set on a finalized
    directory whose metadata cannot be read, the turn raises after having
    published [Checking] only.  In each case a second check-only turn
    right after it publishes the same states and flags. *)
Theorem cycle_check_only w s :
  request s = CHECK →
  let r := cycle w s in
  let r2 := cycle w (with_request CHECK (final r)) in
  (disk (final r) = disk s ∧
   Forall (λ y, disk y.2 = disk s) (steps r) ∧
   extract_events (events r) = []) ∧
  (∀ d bm,
     basedir (disk s) = Some d →
     build_metadata_of w d = Some bm →
     (∀ rm man,
        fetch_channel_data w (resolved_target s bm) = Ok (rm, man) →
        marker s = true → is_Some (finalized_identity w s)) →
     outcome r = Ok tt ∧
     status_events (events r)
       = (CHECKING, false, false) :: check_verdict w s bm ∧
     status_events (events r2) = status_events (events r) ∧
     disk (final r2) = disk s) ∧
  (∀ d bm rm man,
     basedir (disk s) = Some d →
     build_metadata_of w d = Some bm →
     fetch_channel_data w (resolved_target s bm) = Ok (rm, man) →
     marker s = true →
     finalized_identity w s = None →
     outcome r = Raise InvalidBuildMetadata ∧
     status_events (events r) = [(CHECKING, false, false)] ∧
     status_events (events r2) = status_events (events r) ∧
     disk (final r2) = disk s).
Proof.
  intros Hreq r r2.
  destruct (keeps_elim _ _ _ _ s (cycle_check_only_frame w s Hreq) eq_refl)
    as [Hsteps Hdisk].
  fold r in Hsteps, Hdisk.
  split; [|split].
  - split_and!; [done| |].
    + eapply Forall_impl; [exact Hsteps|]. by intros [ev x] [? _].
    + apply no_extract_events.
      eapply Forall_impl; [exact Hsteps|]. by intros [ev x] [_ ?].
  - intros d bm Hd Hbm Hfin.
    destruct (cycle_check_only_run w s d bm Hreq Hd Hbm Hfin)
      as (Ho & Hst & _ & Htc).
    fold r in Ho, Hst, Htc.
    set (s2 := with_request CHECK (final r)) in *.
    assert (disk s2 = disk s) as Hd2 by done.
    assert (resolved_target s2 bm = resolved_target s bm) as Ht2.
    { unfold resolved_target at 1. simpl. by rewrite Htc. }
    destruct (cycle_check_only_run w s2 d bm) as (_ & Hst2 & Hdf2 & _);
      [done|by rewrite Hd2|done| |].
    { unfold marker, finalized_identity. rewrite Hd2, Ht2. exact Hfin. }
    fold r2 in Hst2, Hdf2.
    split_and!; [done|done| |by rewrite Hdf2].
    by rewrite Hst, Hst2, (check_verdict_same_disk w s s2 bm Hd2 Ht2).
  - intros d bm rm man Hd Hbm Hx Hm Hnone.
    destruct (cycle_check_only_raise w s d bm rm man Hreq Hd Hbm Hx Hm Hnone)
      as (Ho & Hst & _ & _ & Htc).
    fold r in Ho, Hst, Htc.
    set (s2 := with_request CHECK (final r)) in *.
    assert (disk s2 = disk s) as Hd2 by done.
    assert (resolved_target s2 bm = resolved_target s bm) as Ht2.
    { unfold resolved_target at 1. simpl. by rewrite Htc. }
    destruct (cycle_check_only_raise w s2 d bm rm man) as (_ & Hst2 & Hdf2 & _);
      [done|by rewrite Hd2|done|by rewrite Ht2
      |unfold marker; by rewrite Hd2
      |unfold finalized_identity; by rewrite Hd2|].
    fold r2 in Hst2, Hdf2.
    split_and!; [done|done|by rewrite Hst, Hst2|by rewrite Hdf2].
Qed.

(** Witness of [cycle_check_only]: a check-only request while the remote
    serves a release newer than the running one, with nothing finalized
    and with a marked finalized directory that declares no build. *)
Lemma cycle_check_only_witness :
  let w := sample_world "c2" in
  let s := sample_machine (sample_release "release" "c1") None CHECK in
  let s' := sample_machine (sample_release "release" "c1")
              (Some {[ sentinel := File "" ]}) CHECK in
  (disk (final (cycle w s)) = disk s ∧
   status_events (events (cycle w s))
     = [(CHECKING, false, false); (IDLE, true, false); (IDLE, true, false)] ∧
   status_events (events (cycle w (with_request CHECK (final (cycle w s)))))
     = status_events (events (cycle w s))) ∧
  (outcome (cycle w s') = Raise InvalidBuildMetadata ∧
   status_events (events (cycle w s')) = [(CHECKING, false, false)] ∧
   disk (final (cycle w s')) = disk s').
Proof.
  intros w s s'. split.
  - destruct (cycle_check_only w s eq_refl) as ((Hd & _ & _) & Hpub & _).
    destruct (Hpub (sample_release "release" "c1")
                (sample_metadata "release" "c1"))
      as (_ & Hst & Hst2 & _); [reflexivity|reflexivity| |].
    + intros rm man _ Hm. discriminate Hm.
    + split_and!; [exact Hd| |exact Hst2]. rewrite Hst. reflexivity.
  - destruct (cycle_check_only w s' eq_refl) as ((Hd & _ & _) & _ & Hraise).
    destruct (Hraise (sample_release "release" "c1")
                (sample_metadata "release" "c1")
                (sample_metadata "release" "c2") (Some sample_manifest))
      as (Ho & Hst & _); [reflexivity..|].
    by split_and!.
Defined.

(** C8, as stated, fails: a check-only turn whose remote fetch fails
    publishes [Failed], not [Idle]. *)
Lemma cycle_check_only_offline :
  let w := sample_world_offline in
  let s := sample_machine (sample_release "release" "c1") None CHECK in
  request s = CHECK ∧
  outcome (cycle w s) = Ok tt ∧
  status_events (events (cycle w s))
    = [(CHECKING, false, false); (FAILED, false, false)].
Proof. by vm_compute. Qed.

(** * The target channel *)

Ltac side_contra :=
  match goal with
  | H1 : ?a = None, H2 : ?a = Some _ |- _ => rewrite H1 in H2; discriminate
  end.

Lemma target_writes_app l1 l2 :
  target_writes (l1 ++ l2) = target_writes l1 ++ target_writes l2.
Proof.
  induction l1 as [|ev l1 IH]; [done|].
  destruct ev; simpl; rewrite ?IH; try done. by destruct (String.eqb _ _).
Qed.

Lemma fetches_app l1 l2 : fetches (l1 ++ l2) = fetches l1 ++ fetches l2.
Proof.
  induction l1 as [|ev l1 IH]; [done|]. destruct ev; simpl; by rewrite ?IH.
Qed.

Lemma target_writes_quiet t (tl : trace) :
  Forall (λ y, target_quiet t y.1 y.2) tl → target_writes tl.*1 = [].
Proof.
  induction 1 as [|[ev x] tl [_ Hev] _ IH]; [done|].
  rewrite fmap_cons. cbn [fst] in *.
  transitivity (target_writes [ev] ++ target_writes tl.*1);
    [apply (target_writes_app [ev])|]. by rewrite IH, Hev.
Qed.

Lemma fetches_settled t (tl : trace) :
  Forall (λ y, target_settled t y.1 y.2) tl → fetches tl.*1 = [].
Proof.
  induction 1 as [|[ev x] tl [_ Hev] _ IH]; [done|].
  rewrite fmap_cons. cbn [fst] in *.
  transitivity (fetches [ev] ++ fetches tl.*1);
    [apply (fetches_app [ev])|]. by rewrite IH, Hev.
Qed.

(** Side conditions of the walks below: the step is a write to another
    key, or no write to the store at all. *)
Ltac target_side :=
  intros ? ?; subst; simpl in *; cbn [String.append];
  try side_contra; try done;
  repeat split; try done;
  by rewrite ?lookup_insert_ne by done.

Lemma keeps_cycle_target w t :
  keeps (λ x, params x !! TARGET_KEY = Some t)
        (λ x, params x !! TARGET_KEY = Some t) (target_quiet t) (cycle w).
Proof.
  unfold cycle, target_quiet, TARGET_KEY. keeps_walk; target_side.
Qed.

Lemma keeps_handle_remote_target w t urc ur rbm rman :
  keeps (λ x, params x !! TARGET_KEY = Some t)
        (λ x, params x !! TARGET_KEY = Some t) (target_settled t)
        (handle_remote w urc ur rbm rman).
Proof.
  unfold target_settled, target_quiet, TARGET_KEY. keeps_walk; target_side.
Qed.

Lemma keeps_run_cycles_target w t reqs :
  keeps (λ x, params x !! TARGET_KEY = Some t)
        (λ x, params x !! TARGET_KEY = Some t) (target_quiet t)
        (run_cycles w reqs).
Proof.
  induction reqs as [|r reqs IH]; simpl.
  - by apply keeps_ret.
  - apply keeps_bind; [by apply keeps_set_user_request|]. intros _.
    apply keeps_bind; [apply keeps_cycle_target|]. intros _. exact IH.
Qed.

Lemma target_settled_quiet t (tl : trace) :
  Forall (λ y, target_settled t y.1 y.2) tl →
  Forall (λ y, target_quiet t y.1 y.2) tl.
Proof. intros H. eapply Forall_impl; [exact H|]. by intros [ev x] [? _]. Qed.

Lemma target_quiet_key t (tl : trace) :
  Forall (λ y, target_quiet t y.1 y.2) tl →
  Forall (λ y, params y.2 !! TARGET_KEY = Some t) tl.
Proof. intros H. eapply Forall_impl; [exact H|]. by intros [ev x] [? _]. Qed.

(** C9.  With the running build's metadata readable, a turn resolves the
    target channel to the persisted one, or to the running build's channel
    when none is persisted; it writes the target back exactly in the
    second case, with that default; it fetches the remote data once, for
    the resolved target; from its first step on and when it ends, normally
    or not, the store holds the resolved target; and no later turn writes
    the target again: each finds it present. *)
Theorem cycle_resolves_target w s d bm :
  basedir (disk s) = Some d →
  build_metadata_of w d = Some bm →
  let r := cycle w s in
  let t := resolved_target s bm in
  target_writes (events r)
    = match params s !! TARGET_KEY with
      | Some _ => []
      | None => [channel bm]
      end ∧
  fetches (events r) = [t] ∧
  Forall (λ y, params y.2 !! TARGET_KEY = Some t) (steps r) ∧
  params (final r) !! TARGET_KEY = Some t ∧
  (∀ reqs,
     let rr := run_cycles w reqs (final r) in
     Forall (λ y, target_quiet t y.1 y.2) (steps rr) ∧
     params (final rr) !! TARGET_KEY = Some t).
Proof.
  intros Hd Hbm r t. subst r t.
  enough (wp (cycle w) (λ tr _ x,
    target_writes tr.*1
      = match params s !! TARGET_KEY with
        | Some _ => []
        | None => [channel bm]
        end ∧
    fetches tr.*1 = [resolved_target s bm] ∧
    Forall (λ y, params y.2 !! TARGET_KEY = Some (resolved_target s bm)) tr ∧
    params x !! TARGET_KEY = Some (resolved_target s bm)) s) as H.
  { destruct H as (H1 & H2 & H3 & H4). split_and!; [done..|].
    intros reqs. by apply (keeps_elim _ _ _ _ _ (keeps_run_cycles_target _ _ _)). }
  unfold cycle. wp_run.
  wp_known ltac:(exact (get_build_metadata_run w BASEDIR s d bm Hd Hbm)).
  unfold resolved_target, TARGET_KEY.
  destruct (params s !! "UpdaterTargetBranch") as [tc|] eqn:Ht; wp_run.
  all: destruct (fetch_channel_data w _) as [[rm man]|x]; wp_run.
  all: eapply wp_keeps; [apply keeps_handle_remote_target| |].
  all: try (unfold TARGET_KEY; simpl; cbn [String.append];
            rewrite ?lookup_insert_ne by done;
            first [exact Ht | apply lookup_insert_eq]).
  all: intros tl r y Htl Hy;
    pose proof (fetches_settled _ _ Htl) as Hf;
    apply target_settled_quiet in Htl;
    pose proof (target_writes_quiet _ _ Htl) as Hw;
    apply target_quiet_key in Htl; unfold TARGET_KEY in *;
    destruct r; wp_run; rewrite ?app_nil_r; unfold fmap in Hw, Hf;
    rewrite ?Hw, ?Hf;
    (split_and!; [done|done| |done]);
    repeat (apply Forall_cons; split;
            [simpl; cbn [String.append];
             rewrite ?lookup_insert_ne by done;
             first [exact Ht | apply lookup_insert_eq]|]);
    exact Htl.
Qed.

(** Witness of [cycle_resolves_target]: first turn of a device on channel
    "release" with an empty parameter store. *)
Lemma cycle_resolves_target_witness :
  let w := sample_world "c1" in
  let s := sample_machine (sample_release "release" "c1") None NONE in
  target_writes (events (cycle w s)) = ["release"] ∧
  fetches (events (cycle w s)) = ["release"] ∧
  params (final (cycle w s)) !! TARGET_KEY = Some "release" ∧
  target_writes (events (run_cycles w [NONE; CHECK] (final (cycle w s)))) = [].
Proof.
  intros w s.
  destruct (cycle_resolves_target w s (sample_release "release" "c1")
              (sample_metadata "release" "c1"))
    as (Hw & Hf & _ & Hk & Hnext); [by vm_compute|by vm_compute|].
  split_and!; [exact Hw|exact Hf|exact Hk|].
  destruct (Hnext [NONE; CHECK]) as [Hq _].
  exact (target_writes_quiet _ _ Hq).
Defined.

(** * Published flags *)

Lemma keeps_seq {A B} P Mid Inv I (m : M A) (f : A → M B) :
  keeps P Mid I m →
  (∀ a, keeps Mid Inv I (f a)) →
  (∀ x, Mid x → Inv x) →
  keeps P Inv I (m ≫= f).
Proof.
  intros Hm Hf Himp s Hs. rewrite bind_run.
  destruct (Hm s Hs) as [Ht Ho].
  destruct (m s) as [[t1 s1] [a|e]]; simpl in *; [|auto].
  destruct (Hf a s1 Ho) as [Ht2 Ho2].
  destruct (f a s1) as [[t2 s2] r]; simpl in *.
  split; [by apply Forall_app|done].
Qed.

Lemma keeps_post {A} P Inv Inv' I (m : M A) :
  keeps P Inv I m → (∀ x, Inv x → Inv' x) → keeps P Inv' I m.
Proof. intros H Himp. eapply hoare_conseq; [exact H|..]; auto. Qed.

Lemma set_status_params_run st a r s :
  let a' := default false a in
  let r' := default false r in
  let s1 := with_params (<["UpdaterState" := state_value st]>) s in
  let s2 := with_params (<["UpdaterFetchAvailable" := if a' then "1" else "0"]>)
              s1 in
  let s3 := with_params (<["UpdateAvailable" := if r' then "1" else "0"]>) s2 in
  set_status_params st a r s =
  ([(EvPut "UpdaterState" (state_value st), s1);
    (EvPut "UpdaterFetchAvailable" (if a' then "1" else "0"), s2);
    (EvPut "UpdateAvailable" (if r' then "1" else "0"), s3);
    (EvSetStatus st a' r', s3)], s3, Ok tt).
Proof. intros. apply run_eq_of_wp. by wp_run. Qed.

(** Publishing with both flags omitted. *)
Lemma keeps_status_default P st :
  keeps P flags_false status_law (set_status_params st None None).
Proof.
  intros s _. rewrite set_status_params_run. cbn.
  assert (flags_false
            (with_params <["UpdateAvailable":="0"]>
               (with_params <["UpdaterFetchAvailable":="0"]>
                  (with_params <["UpdaterState":=state_value st]> s)))) as Hf.
  { unfold flags_false. simpl. by split; params_lookup. }
  split; [|exact Hf].
  repeat constructor; simpl; try done; by params_lookup.
Qed.

(** Publishing [Idle] or [Failed], with any flags. *)
Lemma keeps_status_final P st a r :
  st ∉ [CHECKING; DOWNLOADING; FINALIZING] →
  keeps P (λ _, True) status_law (set_status_params st a r).
Proof.
  intros Hst s _. rewrite set_status_params_run. cbn.
  split; [|done]. by repeat constructor.
Qed.

Lemma idle_is_final : IDLE ∉ [CHECKING; DOWNLOADING; FINALIZING].
Proof. rewrite !not_elem_of_cons. split_and!; try done. apply not_elem_of_nil. Qed.

Lemma failed_is_final : FAILED ∉ [CHECKING; DOWNLOADING; FINALIZING].
Proof. rewrite !not_elem_of_cons. split_and!; try done. apply not_elem_of_nil. Qed.

(** The status publications are taken as a whole in the walks below. *)
Ltac status_hook :=
  lazymatch goal with
  | |- keeps _ _ _ (set_status_params IDLE _ _) =>
      eapply keeps_post; [apply keeps_status_final, idle_is_final|done]
  | |- keeps _ _ _ (set_status_params FAILED _ _) =>
      eapply keeps_post; [apply keeps_status_final, failed_is_final|done]
  | |- keeps _ _ _ (set_status_params _ None None) =>
      first [ apply keeps_status_default
            | eapply keeps_post; [apply keeps_status_default|done] ]
  end.

Ltac status_side :=
  intros ? ?; subst;
  unfold status_law, publish_ok, busy_ok, flags_false in *;
  simpl in *; cbn [String.append];
  rewrite ?lookup_insert_ne by done;
  try done; repeat split; try done; tauto.

Ltac status_walk :=
  cbn beta iota; repeat (first [status_hook | keeps_step]; cbn beta iota).

Lemma keeps_fetch_and_finalize_status w P man :
  keeps P (λ _, True) status_law (fetch_and_finalize w man).
Proof.
  unfold fetch_and_finalize.
  eapply keeps_seq with (Mid := flags_false);
    [apply keeps_status_default| |done].
  intros _. eapply keeps_post; [|done].
  status_walk; status_side.
Qed.

Lemma keeps_cycle_status w :
  keeps (λ _, True) (λ _, True) status_law (cycle w).
Proof.
  unfold cycle.
  cbn beta iota;
    repeat (first [ status_hook
                  | apply keeps_fetch_and_finalize_status
                  | keeps_step ]; cbn beta iota);
    status_side.
Qed.

Lemma keeps_run_cycles_status w reqs :
  keeps (λ _, True) (λ _, True) status_law (run_cycles w reqs).
Proof.
  induction reqs as [|r reqs IH]; simpl.
  - by apply keeps_ret.
  - apply keeps_bind; [by apply keeps_set_user_request|]. intros _.
    apply keeps_bind; [apply keeps_cycle_status|]. intros _. exact IH.
Qed.

(** C10.  In every run of [main], each publication of [Checking],
    [Downloading] or [Finalizing] carries [update_available = False] and
    [update_ready = False] (the defaults of [set_status_params]) and has
    written them next to the state; and at every step of a download or of
    a finalize the two published flags read false, whatever the finalized
    directory holds. *)
Theorem main_status_flags w reqs s :
  Forall (λ y, publish_ok y.1 y.2 ∧ busy_ok y.1 y.2) (steps (main w reqs s)).
Proof.
  assert (keeps (λ _, True) (λ _, True) status_law (main w reqs)) as H.
  { unfold main. apply keeps_bind; [status_hook|]. intros _.
    apply keeps_run_cycles_status. }
  by destruct (keeps_elim _ _ _ _ s H I) as [Hall _].
Qed.

(** The case the claim singles out: release c1 is finalized and marked,
    the remote serves c2; while c2 is being extracted and finalized the
    published [UpdateAvailable] reads "0". *)
Lemma update_ready_hidden_while_busy :
  let w := sample_world "c2" in
  let s := sample_machine (sample_release "release" "c0")
             (Some (sample_marked_release "release" "c1")) NONE in
  marker s = true ∧
  status_events (events (cycle w s))
    = [(CHECKING, false, false); (IDLE, true, true);
       (DOWNLOADING, false, false); (FINALIZING, false, false);
       (IDLE, false, true)] ∧
  omap (λ y, match y.1 with
             | EvExtract c _ _ =>
                 Some (c, marker y.2, params y.2 !! "UpdateAvailable")
             | _ => None
             end) (steps (cycle w s))
    = [("release.caidx", true, Some "0")].
Proof. by vm_compute. Qed.

(** * Extraction failure *)

(** Once the remote has answered, nothing the turn does publishes
    [Failed]: neither a failing extraction nor a failing finalize is
    caught. *)
Lemma handle_remote_never_publishes_failed w urc ur rm man :
  keeps (λ _, True) (λ _, True)
    (λ ev _, ∀ a r, ev ≠ EvSetStatus FAILED a r)
    (handle_remote w urc ur (Some rm) (Some man)).
Proof.
  unfold handle_remote. simpl.
  keeps_walk; intros ? ?; subst; simpl; done.
Qed.

(** C4, the code at the failing input.  The device runs c1, the remote
    serves c2, a background turn starts the download and casync is cut off
    (non-zero exit status, one file extracted).  If [run_cmd] raises on the
    exit status, the exception leaves the turn and the loop of [main]: the
    last state published is [Downloading], never [Failed], and no second
    turn runs; the finalized directory is as before.  If [run_cmd] does not
    raise, the failure goes unnoticed: the partial staging tree is
    finalized and marked.  Either way [Failed] is not published. *)
Theorem cycle_extraction_failure :
  let s := sample_machine (sample_release "release" "c1")
             (Some (sample_marked_release "release" "c0")) NONE in
  let raising := sample_world_cut "c2" true in
  let silent := sample_world_cut "c2" false in
  (outcome (cycle raising s) = Raise CalledProcessError ∧
   status_events (events (cycle raising s))
     = [(CHECKING, false, false); (IDLE, true, true);
        (DOWNLOADING, false, false)] ∧
   params (final (cycle raising s)) !! "UpdaterState"
     = Some (state_value DOWNLOADING) ∧
   finalized (disk (final (cycle raising s))) = finalized (disk s) ∧
   outcome (main raising [NONE; NONE] s) = Raise CalledProcessError ∧
   fetches (events (main raising [NONE; NONE] s)) = ["release"]) ∧
  (status_events (events (cycle silent s))
     = [(CHECKING, false, false); (IDLE, true, true);
        (DOWNLOADING, false, false); (FINALIZING, false, false)] ∧
   finalized (disk (final (cycle silent s)))
     = Some (marked {[ "commit" := File "c2" ]})).
Proof. intros s raising silent. repeat split; reflexivity. Qed.

(** * Further properties: the consistency marker *)

Lemma get_consistent_flag_run p s :
  get_consistent_flag p s = ([], s, Ok (has_marker (read_dir (disk s) p))).
Proof. reflexivity. Qed.




(** X2.  On a missing finalized directory, clearing the marker succeeds
    and changes nothing ([missing_ok]), while setting it raises
    [FileNotFoundError] after the first flush; the second flush is not
    reached and the machine is left as it was. *)
Theorem set_consistent_flag_missing_directory s :
  finalized (disk s) = None →
  set_consistent_flag false s
    = ([(EvSync, s); (EvUnlink FINALIZED sentinel, s); (EvSync, s)],
       s, Ok tt) ∧
  set_consistent_flag true s = ([(EvSync, s)], s, Raise FileNotFoundError).
Proof.
  intros Hd. split; apply run_eq_of_wp;
    unfold set_consistent_flag, unlink_missing_ok, touch;
    wp_run; rewrite Hd; by wp_run.
Qed.

(** Witness of [set_consistent_flag_missing_directory]. *)
Lemma set_consistent_flag_missing_directory_witness :
  let s := sample_machine (sample_release "release" "c1") None NONE in
  outcome (set_consistent_flag true s) = Raise FileNotFoundError.
Proof.
  intros s.
  destruct (set_consistent_flag_missing_directory s eq_refl) as [_ H].
  by rewrite H.
Defined.

(** * Further properties: what is published *)

Lemma state_value_inj st st' : state_value st = state_value st' → st = st'.
Proof. destruct st, st'; simpl; intros H; try done; discriminate. Qed.

Lemma flag_value_inj (a b : bool) :
  (if a then "1" else "0") = (if b then "1" else "0") → a = b.
Proof. destruct a, b; intros H; try done; discriminate. Qed.

Lemma set_status_params_params st a r s :
  params (final (set_status_params st a r s))
  = <["UpdateAvailable" := if default false r then "1" else "0"]>
      (<["UpdaterFetchAvailable" := if default false a then "1" else "0"]>
         (<["UpdaterState" := state_value st]> (params s))).
Proof. by rewrite set_status_params_run. Qed.

(** X3.  A status publication overwrites the previous one: after two
    calls of [set_status_params] the parameter store is what the second
    call alone would have left, and a call changes nothing but its three
    keys (no other parameter, not the disk, not the pending request). *)
Theorem set_status_params_last_wins st1 a1 r1 st2 a2 r2 s :
  let x1 := final (set_status_params st1 a1 r1 s) in
  let x2 := final (set_status_params st2 a2 r2 x1) in
  params x2 = params (final (set_status_params st2 a2 r2 s)) ∧
  (∀ k, k ∉ ["UpdaterState"; "UpdaterFetchAvailable"; "UpdateAvailable"] →
        params x1 !! k = params s !! k) ∧
  disk x1 = disk s ∧ request x1 = request s.
Proof.
  intros x1 x2. subst x1 x2. split_and!.
  - rewrite !set_status_params_params. apply map_eq. intros k.
    rewrite !lookup_insert. by repeat case_decide.
  - intros k Hk. rewrite set_status_params_params.
    repeat (apply not_elem_of_cons in Hk as [? Hk]).
    by rewrite !lookup_insert_ne.
  - by rewrite set_status_params_run.
  - by rewrite set_status_params_run.
Qed.

(** X4.  The published status can be decoded: the five state strings are
    pairwise distinct and so are the two flag strings, so two publications
    that leave the same three parameters were made with the same state and
    the same flags (an omitted flag counting as [False]). *)
Theorem set_status_params_injective st a r st' a' r' s s' :
  let x := final (set_status_params st a r s) in
  let x' := final (set_status_params st' a' r' s') in
  params x !! "UpdaterState" = params x' !! "UpdaterState" →
  params x !! "UpdaterFetchAvailable" = params x' !! "UpdaterFetchAvailable" →
  params x !! "UpdateAvailable" = params x' !! "UpdateAvailable" →
  st = st' ∧ default false a = default false a' ∧
  default false r = default false r'.
Proof.
  intros x x'. subst x x'. rewrite !set_status_params_params.
  intros H1 H2 H3.
  rewrite !(lookup_insert_ne _ "UpdateAvailable" "UpdaterState"),
    !(lookup_insert_ne _ "UpdaterFetchAvailable" "UpdaterState"),
    !lookup_insert_eq in H1 by done.
  rewrite !(lookup_insert_ne _ "UpdateAvailable" "UpdaterFetchAvailable"),
    !lookup_insert_eq in H2 by done.
  rewrite !lookup_insert_eq in H3.
  injection H1 as H1. injection H2 as H2. injection H3 as H3.
  split_and!; [by apply state_value_inj|by apply flag_value_inj..].
Qed.

(** Witness of [set_status_params_injective]: publishing [Downloading]
    with the flags omitted and with both flags [False] reads the same. *)
Lemma set_status_params_injective_witness :
  let s := sample_machine (sample_release "release" "c1") None NONE in
  DOWNLOADING = DOWNLOADING ∧
  default false None = default false (Some false) ∧
  default false None = default false (Some false).
Proof.
  intros s.
  apply (set_status_params_injective DOWNLOADING None None
           DOWNLOADING (Some false) (Some false) s s); reflexivity.
Defined.

Lemma snapshot_ext (x y : snapshot) :
  params x = params y → disk x = disk y → request x = request y → x = y.
Proof. destruct x, y. simpl. by intros -> -> ->. Qed.

Lemma set_channel_params_params w name bm s :
  params (final (set_channel_params w name bm s))
  = <["Updater" +:+ name +:+ "ReleaseNotes" :=
        markdown_render w (release_notes (openpilot bm))]>
      (<["Updater" +:+ name +:+ "Description" :=
           version (openpilot bm) +:+ " / " +:+ channel bm]> (params s)).
Proof. reflexivity. Qed.

(** X5.  The descriptions of the running and of the new release are
    published under disjoint keys: [set_current_channel_params] and
    [set_new_channel_params] commute, each publishes "version / channel"
    and the rendered release notes under its own two keys, and the two
    calls together change nothing else: no other parameter (so neither
    the status parameters nor the target channel), not the disk and not
    the pending request. *)
Theorem set_channel_params_independent w cur new s :
  let x := final (set_new_channel_params w new
                    (final (set_current_channel_params w cur s))) in
  let y := final (set_current_channel_params w cur
                    (final (set_new_channel_params w new s))) in
  x = y ∧
  params x !! "UpdaterCurrentDescription"
    = Some (version (openpilot cur) +:+ " / " +:+ channel cur) ∧
  params x !! "UpdaterCurrentReleaseNotes"
    = Some (markdown_render w (release_notes (openpilot cur))) ∧
  params x !! "UpdaterNewDescription"
    = Some (version (openpilot new) +:+ " / " +:+ channel new) ∧
  params x !! "UpdaterNewReleaseNotes"
    = Some (markdown_render w (release_notes (openpilot new))) ∧
  (∀ k, k ∉ ["UpdaterCurrentDescription"; "UpdaterCurrentReleaseNotes";
             "UpdaterNewDescription"; "UpdaterNewReleaseNotes"] →
        params x !! k = params s !! k) ∧
  disk x = disk s ∧
  request x = request s.
Proof.
  intros x y.
  assert (params x = params y) as Hp.
  { subst x y. unfold set_new_channel_params, set_current_channel_params.
    rewrite !set_channel_params_params. cbn [String.append].
    apply map_eq. intros k. rewrite !lookup_insert.
    repeat case_decide; simplify_eq; done. }
  split_and!.
  - apply snapshot_ext; [exact Hp|reflexivity|reflexivity].
  - subst x. unfold set_new_channel_params, set_current_channel_params.
    rewrite !set_channel_params_params. by params_lookup.
  - subst x. unfold set_new_channel_params, set_current_channel_params.
    rewrite !set_channel_params_params. by params_lookup.
  - subst x. unfold set_new_channel_params, set_current_channel_params.
    rewrite !set_channel_params_params. by params_lookup.
  - subst x. unfold set_new_channel_params, set_current_channel_params.
    rewrite !set_channel_params_params. by params_lookup.
  - intros k Hk. subst x.
    unfold set_new_channel_params, set_current_channel_params.
    rewrite !set_channel_params_params. cbn [String.append].
    repeat (apply not_elem_of_cons in Hk as [? Hk]).
    by rewrite !lookup_insert_ne.
  - reflexivity.
  - reflexivity.
Qed.

(** * Further properties: comparing builds, asking the remote *)

(** X6.  [check_update_available] compares commits only, so it is
    symmetric in the two builds and a build is never an update of itself:
    against the metadata of the directory it reads it answers [False],
    and swapping the directory and the other build does not change the
    answer.  It records no step and leaves the machine as it is. *)
Theorem check_update_available_symmetric w p q s dp dq bp bq :
  read_dir (disk s) p = Some dp →
  build_metadata_of w dp = Some bp →
  read_dir (disk s) q = Some dq →
  build_metadata_of w dq = Some bq →
  check_update_available w p (Some bp) s = ([], s, Ok false) ∧
  outcome (check_update_available w p (Some bq) s)
    = outcome (check_update_available w q (Some bp) s) ∧
  steps (check_update_available w p (Some bq) s) = [] ∧
  final (check_update_available w p (Some bq) s) = s.
Proof.
  intros Hp Hbp Hq Hbq.
  rewrite (check_update_available_run w p bp s dp bp Hp Hbp).
  rewrite (check_update_available_run w p bq s dp bp Hp Hbp).
  rewrite (check_update_available_run w q bp s dq bq Hq Hbq).
  cbn [outcome steps final fst snd]. split_and!; [|f_equal|done|done].
  - by rewrite bool_decide_eq_false_2 by (intros H; by apply H).
  - apply bool_decide_ext. split; intros H E; by apply H.
Qed.

(** Witness of [check_update_available_symmetric]: the running build c1
    against a finalized c2. *)
Lemma check_update_available_symmetric_witness :
  let w := sample_world "c2" in
  let s := sample_machine (sample_release "release" "c1")
             (Some (sample_marked_release "release" "c2")) NONE in
  check_update_available w BASEDIR (Some (sample_metadata "release" "c1")) s
    = ([], s, Ok false) ∧
  outcome (check_update_available w BASEDIR
             (Some (sample_metadata "release" "c2")) s)
    = outcome (check_update_available w FINALIZED
                 (Some (sample_metadata "release" "c1")) s).
Proof.
  intros w s.
  destruct (check_update_available_symmetric w BASEDIR FINALIZED s
              (sample_release "release" "c1")
              (sample_marked_release "release" "c2")
              (sample_metadata "release" "c1")
              (sample_metadata "release" "c2"))
    as (H1 & H2 & _); [reflexivity..|].
  split; [exact H1|exact H2].
Defined.

(** X7.  The failures of [check_update_available].  A directory that is
    missing or declares no build metadata makes it raise, whatever the
    other build is; with readable metadata and no other build ([None]) the
    commit comparison raises [AttributeError].  Neither records a step nor
    changes the machine. *)
Theorem check_update_available_failures w p other s :
  (read_dir (disk s) p ≫= build_metadata_of w = None →
   check_update_available w p other s = ([], s, Raise InvalidBuildMetadata)) ∧
  (is_Some (read_dir (disk s) p ≫= build_metadata_of w) →
   check_update_available w p None s = ([], s, Raise AttributeError)).
Proof.
  split; intros H; apply run_eq_of_wp;
    unfold check_update_available, get_build_metadata; wp_run.
  - destruct (read_dir (disk s) p) as [d|]; simpl in H; [|by wp_run].
    rewrite H. by wp_run.
  - destruct H as [bm H].
    destruct (read_dir (disk s) p) as [d|]; simpl in H; [|done].
    rewrite H. wp_run.
    rewrite bool_decide_eq_false_2 by (intros E; by apply E). by wp_run.
Qed.

(** Witness of [check_update_available_failures]: no finalized directory,
    and no other build. *)
Lemma check_update_available_failures_witness :
  let w := sample_world "c2" in
  let s := sample_machine (sample_release "release" "c1") None NONE in
  outcome (check_update_available w FINALIZED
             (Some (sample_metadata "release" "c2")) s)
    = Raise InvalidBuildMetadata ∧
  outcome (check_update_available w BASEDIR None s) = Raise AttributeError.
Proof.
  intros w s. split.
  - destruct (check_update_available_failures w FINALIZED
                (Some (sample_metadata "release" "c2")) s) as [H _].
    by rewrite H.
  - destruct (check_update_available_failures w BASEDIR None s) as [_ H].
    rewrite H; [done|]. by exists (sample_metadata "release" "c1").
Defined.

(** X8.  [get_remote_channel_data] never raises and never changes the
    machine; it makes one request, for the channel it is given.  Its
    first result is [None] exactly when the body of the [try] raised (the
    request, the decoding, a key lookup or [build_metadata_from_dict]),
    and then the second is [None] too, so that the test of line 148 is
    the test of the first result alone.  The converse fails: the manifest
    of the body is passed on unexamined, and a body whose manifest is
    [null] gives build metadata together with [None]. *)
Theorem get_remote_channel_data_total w ch s :
  ∃ rbm rman,
    get_remote_channel_data w ch s = ([(EvFetch ch, s)], s, Ok (rbm, rman)) ∧
    (rbm = None ↔ ∃ x, fetch_channel_data w ch = Raise x) ∧
    (rbm = None → rman = None) ∧
    bool_decide (is_Some rbm) || bool_decide (is_Some rman)
      = bool_decide (is_Some rbm) ∧
    (∀ bm,
       requests_get_json w
         (API_HOST w +:+ "/" +:+ CHANNELS_API_ROOT +:+ "/" +:+ ch)
         = JsonBody (Some (Some bm)) (Some None) →
       rbm = Some bm ∧ rman = None).
Proof.
  assert (wp (get_remote_channel_data w ch) (λ t r x,
    (t, x, r) = ([(EvFetch ch, s)], s,
                 Ok match fetch_channel_data w ch with
                    | Ok (bm, m) => (Some bm, m)
                    | Raise _ => (None, None)
                    end)) s) as Hrun.
  { unfold get_remote_channel_data. wp_run.
    destruct (fetch_channel_data w ch) as [[bm m]|x]; by wp_run. }
  apply run_eq_of_wp in Hrun. rewrite Hrun.
  unfold fetch_channel_data.
  destruct (requests_get_json w _) as [| |[[bm|]|] [[m|]|]];
    eexists _, _; (split; [reflexivity|]);
    (split_and!;
     [split; [intros [=]|intros [x [=]]]; eauto; done
     |intros [=]; done
     |done
     |intros ? [=]; by subst]).
Qed.

(** Witness of [get_remote_channel_data_total]: a body with build
    metadata and a [null] manifest. *)
Lemma get_remote_channel_data_total_witness :
  let w := sample_world_null_manifest "c2" in
  let s := sample_machine (sample_release "release" "c1") None NONE in
  outcome (get_remote_channel_data w "release" s)
    = Ok (Some (sample_metadata "release" "c2"), None).
Proof.
  intros w s.
  destruct (get_remote_channel_data_total w "release" s)
    as (rbm & rman & Hrun & _ & _ & _ & Hnull).
  destruct (Hnull (sample_metadata "release" "c2") eq_refl) as [-> ->].
  by rewrite Hrun.
Defined.

(** * Further properties: download and finalize *)

Ltac frame_side :=
  intros ? ?; subst;
  unfold outside_staging, outside_finalized, download_event,
    finalize_event in *;
  simpl in *; try done; intuition (try done; try congruence).

Lemma keeps_download_update_frame w manifest s :
  keeps (λ x, x = s)
    (λ x, outside_staging s x ∧ is_Some (casync_tmp (disk x)))
    (λ ev x, download_event ev ∧ outside_staging s x)
    (download_update w manifest).
Proof.
  unfold download_update.
  eapply keeps_seq with
    (Mid := λ x, outside_staging s x ∧ is_Some (casync_tmp (disk x)));
    [| |done].
  - keeps_walk; frame_side; eauto.
  - intros _. keeps_walk; frame_side; eauto.
Qed.

(** X9.  [download_update] works in the staging area only.  For every
    manifest and whatever casync does, also when the call raises, each of
    its steps is the creation of one of the two staging directories or an
    extraction into the staging directory seeded with the running
    installation; no step changes the parameter store, the running
    installation, the finalized directory (so not the marker either) or
    the pending request; and the casync working directory exists
    afterwards. *)
Theorem download_update_frame w manifest s :
  let r := download_update w manifest s in
  Forall (λ y, download_event y.1 ∧ outside_staging s y.2) (steps r) ∧
  outside_staging s (final r) ∧
  marker (final r) = marker s ∧
  is_Some (casync_tmp (disk (final r))).
Proof.
  intros r. subst r.
  destruct (keeps_elim _ _ _ _ s (keeps_download_update_frame w manifest s)
              eq_refl) as [Hsteps [Hout Htmp]].
  split_and!; [done|done| |done].
  unfold marker. by destruct Hout as (_ & _ & -> & _).
Qed.



(** X11.  [finalize_update] has no rollback.  When the staging directory
    is missing, the call has already cleared the marker and removed the
    old finalized directory by the time [copytree] raises
    [FileNotFoundError]: the machine is left with no finalized directory
    at all. *)
Theorem finalize_update_missing_staging w s :
  rmtree_fault w = None →
  casync (disk s) = None →
  (∀ d, finalized (disk s) = Some d → d !! sentinel ≠ Some Dir) →
  let r := finalize_update w s in
  outcome r = Raise FileNotFoundError ∧
  final r = set_finalized None s ∧
  (is_Some (finalized (disk s)) → EvRmdir FINALIZED ∈ events r).
Proof.
  intros Hrm Hc Hdir r. subst r.
  pose proof (set_consistent_flag_false_run s Hdir) as Hclr.
  enough (wp (finalize_update w) (λ t r x,
    r = Raise FileNotFoundError ∧ x = set_finalized None s ∧
    (is_Some (finalized (disk s)) → EvRmdir FINALIZED ∈ t.*1)) s) as H
    by exact H.
  unfold finalize_update. wp_known ltac:(exact Hclr).
  destruct (finalized (disk s)) as [d|] eqn:Hd.
  - destruct (rmtree_run w (cleared s) (delete sentinel d) Hrm)
      as (t1 & Hrun1 & Hev1 & _).
    { unfold cleared. by rewrite Hd. }
    assert (cleared s = set_finalized (Some (delete sentinel d)) s) as Hcs
      by (unfold cleared; by rewrite Hd).
    rewrite Hcs in *. simpl.
    wp_known ltac:(exact Hrun1).
    unfold copytree_symlinks. wp_run. rewrite Hc. wp_run.
    split_and!; [done|done|]. intros _.
    do 3 (apply elem_of_cons; right).
    change (list_fmap _ _ fst ?l) with (l.*1).
    rewrite app_nil_r, fmap_app. apply elem_of_app. right.
    apply elem_of_cons. by left.
  - assert (cleared s = s) as Hcl.
    { unfold cleared. rewrite Hd. simpl. rewrite <- Hd.
      apply set_finalized_same. }
    rewrite !Hcl. simpl. wp_run.
    unfold copytree_symlinks. wp_run. rewrite Hc. wp_run.
    split_and!; [done| |by intros [? ?]].
    by rewrite <- Hd, set_finalized_same.
Qed.

(** Witness of [finalize_update_missing_staging]: a marked finalized
    release and no staging directory. *)
Lemma finalize_update_missing_staging_witness :
  let w := sample_world "c2" in
  let s := sample_machine (sample_release "release" "c1")
             (Some (sample_marked_release "release" "c2")) NONE in
  outcome (finalize_update w s) = Raise FileNotFoundError ∧
  finalized (disk (final (finalize_update w s))) = None.
Proof.
  intros w s.
  destruct (finalize_update_missing_staging w s) as (Ho & Hf & _);
    [reflexivity|reflexivity| |].
  - intros d [= <-]. vm_compute. discriminate.
  - split; [exact Ho|]. by rewrite Hf.
Defined.

Lemma marked_idemp (a : tree) : marked (marked a) = marked a.
Proof.
  unfold marked at 1. destruct (marked a !! sentinel) eqn:H; [done|].
  pose proof (marked_has_marker a) as Hm. simpl in Hm.
  apply bool_decide_eq_true_1 in Hm. rewrite H in Hm. by destruct Hm.
Qed.



(** * Further properties: the loop *)

(** ** Walking a procedure with a Hoare triple *)

Lemma hoare_trivial {A} P (m : M A) :
  hoare P m (λ _ _, True) (λ _ _, True) (λ _ _, True).
Proof.
  intros s _. split; [|by destruct (outcome (m s))].
  apply Forall_forall. done.
Qed.

Lemma hoare_set_user_request P I (Q : unit → snapshot → Prop) E r :
  (∀ s, P s → Q tt (with_request r s)) → hoare P (set_user_request r) I Q E.
Proof. intros H s Hs. split; [constructor|by apply H]. Qed.

Lemma hoare_seq {A B} P Mid I (Q : B → snapshot → Prop) E
    (m : M A) (f : A → M B) :
  hoare P m I (λ _, Mid) E →
  (∀ a, hoare Mid (f a) I Q E) →
  hoare P (m ≫= f) I Q E.
Proof. intros Hm Hf. by eapply hoare_bind. Qed.

Lemma hoare_loop {A} P Mid I (Q : unit → snapshot → Prop) E (l : list A)
    (body : A → M unit) :
  (∀ s, P s → Mid s) →
  (∀ x, hoare Mid (body x) I (λ _, Mid) E) →
  (∀ s, Mid s → Q tt s) →
  hoare P (for_each l body) I Q E.
Proof.
  intros HP Hb HQ. eapply hoare_conseq;
    [apply (hoare_for_each Mid I E); intros; apply Hb|..]; auto.
  intros []. auto.
Qed.

(** The remote call answers with build metadata, with or without a
    manifest, or with [(None, None)]: what follows it is only ever run on
    those shapes. *)
Lemma hoare_fetch {B} w P I (Q : B → snapshot → Prop) E ch
    (f : option BuildMetadata * option Manifest → M B) :
  (∀ s, P s → I (EvFetch ch) s) →
  (∀ bm m, hoare P (f (Some bm, m)) I Q E) →
  hoare P (f (None, None)) I Q E →
  hoare P (get_remote_channel_data w ch ≫= f) I Q E.
Proof.
  intros HI Hok Hfail. unfold get_remote_channel_data.
  eapply hoare_bind with
    (Q1 := λ a s, P s ∧ (a = (None, None) ∨ ∃ bm m, a = (Some bm, m))).
  - eapply hoare_bind with (Q1 := λ _, P).
    + apply hoare_emit. intros s Hs. split; [by apply HI|done].
    + intros []. destruct (fetch_channel_data w ch) as [[bm m]|x];
        apply hoare_ret; eauto.
  - intros a s [Hs [->|(bm & m & ->)]]; [by apply Hfail|by apply Hok].
Qed.

Lemma handle_remote_offline w urc ur :
  handle_remote w urc ur None None
  = set_status_params FAILED (Some false) (Some false).
Proof. reflexivity. Qed.

(** Walks through a procedure with [Mid] as the assertion between two
    statements; the side conditions are left to the caller. *)
Ltac hoare_step Mid :=
  lazymatch goal with
  | |- hoare _ (mbind _ get) _ _ _ => apply hoare_get_bind; intros ? ?
  | |- hoare _ (mbind _ (get_remote_channel_data _ _)) _ _ _ =>
      apply hoare_fetch; [|intros ? ?|rewrite handle_remote_offline]
  | |- hoare _ (mbind _ _) _ _ _ => apply (hoare_seq _ Mid); [|intros ?]
  | |- hoare _ (mret _) _ _ _ => apply hoare_ret
  | |- hoare _ (ret _) _ _ _ => apply hoare_ret
  | |- hoare _ (raise _) _ _ _ => apply hoare_raise
  | |- hoare _ (emit _ _) _ _ _ => apply hoare_emit
  | |- hoare _ (set_user_request _) _ _ _ => apply hoare_set_user_request
  | |- hoare _ (for_each _ _) _ _ _ => apply (hoare_loop _ Mid); [|intros ?|]
  | |- hoare _ (match ?x with _ => _ end) _ _ _ => destruct x eqn:?
  | |- hoare _ (sync) _ _ _ => unfold sync
  | |- hoare _ (put _ _) _ _ _ => unfold put
  | |- hoare _ (put_bool _ _) _ _ _ => unfold put_bool
  | |- hoare _ (touch _ _) _ _ _ => unfold touch
  | |- hoare _ (unlink_missing_ok _ _) _ _ _ => unfold unlink_missing_ok
  | |- hoare _ (remove_entry _ _) _ _ _ => unfold remove_entry
  | |- hoare _ (rmtree _ _) _ _ _ => unfold rmtree
  | |- hoare _ (copy_entry _ _ _) _ _ _ => unfold copy_entry
  | |- hoare _ (copytree_symlinks _ _ _) _ _ _ => unfold copytree_symlinks
  | |- hoare _ (mkdir_exist_ok _) _ _ _ => unfold mkdir_exist_ok
  | |- hoare _ (get_build_metadata _ _) _ _ _ => unfold get_build_metadata
  | |- hoare _ (get_consistent_flag _) _ _ _ => unfold get_consistent_flag
  | |- hoare _ (run_cmd_extract _ _ _ _) _ _ _ => unfold run_cmd_extract
  | |- hoare _ (handle_agnos_update _ _) _ _ _ => unfold handle_agnos_update
  | |- hoare _ (set_consistent_flag _) _ _ _ => unfold set_consistent_flag
  | |- hoare _ (set_status_params _ _ _) _ _ _ => unfold set_status_params
  | |- hoare _ (set_channel_params _ _ _) _ _ _ => unfold set_channel_params
  | |- hoare _ (set_current_channel_params _ _) _ _ _ =>
      unfold set_current_channel_params
  | |- hoare _ (set_new_channel_params _ _) _ _ _ =>
      unfold set_new_channel_params
  | |- hoare _ (check_update_available _ _ _) _ _ _ =>
      unfold check_update_available
  | |- hoare _ (download_entry _ _) _ _ _ => unfold download_entry
  | |- hoare _ (download_update _ _) _ _ _ => unfold download_update
  | |- hoare _ (finalize_update _) _ _ _ => unfold finalize_update
  | |- hoare _ (fetch_and_finalize _ _) _ _ _ => unfold fetch_and_finalize
  | |- hoare _ (handle_remote _ _ _ _ _) _ _ _ => unfold handle_remote
  | |- hoare _ (cycle _) _ _ _ => unfold cycle
  end.

Ltac hoare_walk Mid :=
  cbn beta iota; repeat (hoare_step Mid; cbn beta iota).

(** ** The flag read back after a finalize *)

Lemma hoare_mark P :
  hoare P (set_consistent_flag true) (λ _ _, True)
    (λ _ x, marker x = true) (λ _ _, True).
Proof.
  unfold set_consistent_flag. cbn iota.
  apply (hoare_seq _ (λ _, True)); [by hoare_walk (λ _ : snapshot, True)|].
  intros _.
  apply (hoare_seq _ (λ x, marker x = true));
    [|intros _; by hoare_walk (λ x, marker x = true)].
  unfold touch. apply hoare_get_bind. intros s0 _.
  destruct (read_dir (disk s0) FINALIZED) as [d|] eqn:Hd;
    [|by apply hoare_raise].
  simpl in Hd.
  destruct (d !! sentinel) as [e|] eqn:He; apply hoare_emit; intros ? ->;
    (split; [done|]); unfold marker; simpl.
  - rewrite Hd. by apply (has_marker_true d e).
  - apply (has_marker_true _ (File "")). apply lookup_insert_eq.
Qed.

Lemma hoare_finalize_update w P :
  hoare P (finalize_update w) (λ _ _, True)
    (λ _ x, marker x = true) (λ _ _, True).
Proof.
  unfold finalize_update.
  apply (hoare_seq _ (λ _, True)); [apply hoare_trivial|]. intros _.
  apply hoare_get_bind. intros s0 _.
  apply (hoare_seq _ (λ _, True)); [apply hoare_trivial|]. intros _.
  apply (hoare_seq _ (λ _, True)); [apply hoare_trivial|]. intros _.
  apply hoare_mark.
Qed.

(** X13.  The download branch of the loop can only be left, other than by
    an exception, with [update_ready = True]: whatever the manifest, the
    environment and the faults, when lines 160-171 run to their end the
    marker is set on the finalized directory and the flag read back from
    it is [True]. *)
Theorem fetch_and_finalize_returns_ready w man s b :
  outcome (fetch_and_finalize w man s) = Ok b →
  b = true ∧ marker (final (fetch_and_finalize w man s)) = true.
Proof.
  assert (hoare (λ _, True) (fetch_and_finalize w man) (λ _ _, True)
            (λ b x, b = true ∧ marker x = true) (λ _ _, True)) as H.
  { unfold fetch_and_finalize.
    apply (hoare_seq _ (λ _, True)); [apply hoare_trivial|]. intros _.
    apply (hoare_seq _ (λ _, True)); [apply hoare_trivial|]. intros _.
    apply (hoare_seq _ (λ _, True)); [apply hoare_trivial|]. intros _.
    apply (hoare_seq _ (λ _, True)); [apply hoare_trivial|]. intros _.
    apply (hoare_seq _ (λ x, marker x = true));
      [apply hoare_finalize_update|]. intros _.
    hoare_walk (λ x, marker x = true);
      intros ? ?; subst; simpl in *; done. }
  intros Hb. destruct (H s I) as [_ Ho]. by rewrite Hb in Ho.
Qed.

(** Witness of [fetch_and_finalize_returns_ready]: the device runs c1 and
    the remote serves c2 with a one-entry manifest. *)
Lemma fetch_and_finalize_returns_ready_witness :
  let w := sample_world "c2" in
  let s := sample_machine (sample_release "release" "c1") None NONE in
  outcome (fetch_and_finalize w (Some sample_manifest) s) = Ok true ∧
  marker (final (fetch_and_finalize w (Some sample_manifest) s)) = true.
Proof.
  intros w s.
  assert (outcome (fetch_and_finalize w (Some sample_manifest) s) = Ok true)
    as H by reflexivity.
  split; [exact H|].
  exact (proj2 (fetch_and_finalize_returns_ready w _ s true H)).
Defined.

(** ** Exceptions that cannot escape *)

Lemma entry_selected_raises e x : entry_selected e = Raise x → x = KeyError.
Proof.
  unfold entry_selected. destruct (e_type e); [|done].
  case_bool_decide; [|done]. destruct (e_path e); [done|]. by intros [= <-].
Qed.

Lemma hoare_cycle_exceptions w :
  hoare (λ _, True) (cycle w) (λ _ _, True) (λ _ _, True)
    (λ e _, e ≠ AttributeError).
Proof.
  hoare_walk (λ _ : snapshot, True);
    try done; intros ? _; try done;
    try match goal with
        | H : entry_selected _ = Raise _ |- _ =>
            apply entry_selected_raises in H; subst
        end;
    done.
Qed.

Lemma hoare_run_cycles_exceptions w reqs :
  hoare (λ _, True) (run_cycles w reqs) (λ _ _, True) (λ _ _, True)
    (λ e _, e ≠ AttributeError).
Proof.
  induction reqs as [|r reqs IH]; simpl.
  - by apply hoare_ret.
  - apply (hoare_seq _ (λ _, True)); [by apply hoare_set_user_request|].
    intros _.
    apply (hoare_seq _ (λ _, True)); [apply hoare_cycle_exceptions|].
    intros _. exact IH.
Qed.

(** X14.  The loop never compares against a missing build.
    [check_update_available] fails with [AttributeError] on
    [other_metadata.openpilot] when it is given [None], and the guard of
    line 148 would let the body run with [remote_build_metadata = None] if
    only the manifest were there; as [get_remote_channel_data] returns no
    manifest without build metadata, that does not happen: no run of
    [main], whatever the remote answers and whatever fails, ends in
    [AttributeError]. *)
Theorem main_never_raises_attribute_error w reqs s :
  outcome (main w reqs s) ≠ Raise AttributeError.
Proof.
  assert (hoare (λ _, True) (main w reqs) (λ _ _, True) (λ _ _, True)
            (λ e _, e ≠ AttributeError)) as H.
  { unfold main. apply (hoare_seq _ (λ _, True)).
    - hoare_walk (λ _ : snapshot, True); done.
    - intros _. apply hoare_run_cycles_exceptions. }
  destruct (H s I) as [_ Ho].
  intros Hr. rewrite Hr in Ho. by apply Ho.
Qed.

(** ** The pending request *)

Lemma hoare_cycle_request w s :
  hoare (λ x, x = s) (cycle w) (λ _ x, request x = request s)
    (λ _ x, request x = NONE) (λ _ x, request x = request s).
Proof.
  hoare_walk (λ x, request x = request s);
    intros ? ?; subst; simpl in *; try done; by split.
Qed.

(** X15.  The pending request is consumed by a completed turn and by
    nothing else: no step of a turn changes it, the turn resets it to
    [NONE] when it reaches its end (line 177), and a turn that an
    exception cuts short leaves it as it was. *)
Theorem cycle_consumes_request w s :
  let r := cycle w s in
  Forall (λ y, request y.2 = request s) (steps r) ∧
  request (final r) = match outcome r with
                      | Ok _ => NONE
                      | Raise _ => request s
                      end.
Proof.
  intros r. subst r.
  destruct (hoare_cycle_request w s s eq_refl) as [Hsteps Ho].
  split; [exact Hsteps|]. by destruct (outcome (cycle w s)).
Qed.


(** * Further properties: what the updater reads *)

Lemma alike_ret {A} (P R : snapshot → snapshot → Prop) (a : A) :
  (∀ s x, P s x → R s x) → alike P R (ret a).
Proof. intros H s x Hs. split_and!; [done|done|by apply H]. Qed.

Lemma alike_raise {A} (P R : snapshot → snapshot → Prop) e :
  (∀ s x, P s x → R s x) → alike P R (raise (A:=A) e).
Proof. intros H s x Hs. split_and!; [done|done|by apply H]. Qed.

Lemma alike_emit (P R : snapshot → snapshot → Prop) ev f :
  (∀ s x, P s x → R (f s) (f x)) → alike P R (emit ev f).
Proof. intros H s x Hs. split_and!; [done|done|by apply H]. Qed.

Lemma alike_set_user_request (P R : snapshot → snapshot → Prop) r :
  (∀ s x, P s x → R (with_request r s) (with_request r x)) →
  alike P R (set_user_request r).
Proof. intros H s x Hs. split_and!; [done|done|by apply H]. Qed.

Lemma alike_bind {A B} (P R : snapshot → snapshot → Prop)
    (m : M A) (f : A → M B) :
  alike P R m → (∀ a, alike R R (f a)) → alike P R (m ≫= f).
Proof.
  intros Hm Hf s x Hs. rewrite !bind_run.
  destruct (Hm s x Hs) as (Hev & Ho & Hr).
  destruct (m s) as [[t1 s1] r1], (m x) as [[t1' x1] r1'].
  cbn [events steps final outcome fst snd] in *. subst r1'.
  destruct r1 as [a|e]; [|done].
  destruct (Hf a s1 x1 Hr) as (Hev2 & Ho2 & Hr2).
  destruct (f a s1) as [[t2 s2] r2], (f a x1) as [[t2' x2] r2'].
  cbn [events steps final outcome fst snd] in *.
  split_and!; [|done|done].
  by rewrite !fmap_app, Hev, Hev2.
Qed.

Lemma alike_get_bind {B} (P R : snapshot → snapshot → Prop)
    (f : snapshot → M B) :
  (∀ s0 x0, P s0 x0 →
     f x0 = f s0 ∧ alike (λ s x, s = s0 ∧ x = x0) R (f s0)) →
  alike P R (get ≫= f).
Proof.
  intros H s x Hs. rewrite !bind_run. simpl.
  destruct (H s x Hs) as [Heq Hf]. rewrite Heq.
  destruct (Hf s x (conj eq_refl eq_refl)) as (Hev & Ho & Hr).
  destruct (f s s) as [[t s1] r], (f s x) as [[t' x1] r'].
  by cbn [events steps final outcome fst snd] in *.
Qed.

Lemma alike_for_each {A} (P R : snapshot → snapshot → Prop) (l : list A)
    (body : A → M unit) :
  (∀ s x, P s x → R s x) →
  (∀ e, alike R R (body e)) →
  alike P R (for_each l body).
Proof.
  intros HP Hb. revert P HP. induction l as [|e l IH]; intros P HP.
  - by apply alike_ret.
  - simpl. apply alike_bind.
    + intros s x Hs. by apply Hb, HP.
    + intros []. by apply IH.
Qed.

Ltac alike_facts :=
  unfold same_inputs, same_store, same_disk in *;
  repeat match goal with
         | H : _ ∧ _ |- _ => destruct H
         end;
  subst.

(** The continuation of a read of the machine is the same program on both
    machines. *)
Ltac alike_eq :=
  cbn beta; alike_facts; unfold TARGET_KEY in *;
  repeat match goal with
         | H : _ = _ |- _ => rewrite H
         end;
  reflexivity.

Ltac alike_step :=
  lazymatch goal with
  | |- alike _ _ (mbind _ get) =>
      apply alike_get_bind; intros ? ? ?; split; [alike_eq|]
  | |- alike _ _ (mbind _ _) => apply alike_bind; [|intros ?]
  | |- alike _ _ (mret _) => apply alike_ret
  | |- alike _ _ (ret _) => apply alike_ret
  | |- alike _ _ (raise _) => apply alike_raise
  | |- alike _ _ (emit _ _) => apply alike_emit
  | |- alike _ _ (set_user_request _) => apply alike_set_user_request
  | |- alike _ _ (for_each _ _) => apply alike_for_each; [|intros ?]
  | |- alike _ _ (match ?x with _ => _ end) => destruct x eqn:?
  | |- alike _ _ (sync) => unfold sync
  | |- alike _ _ (put _ _) => unfold put
  | |- alike _ _ (put_bool _ _) => unfold put_bool
  | |- alike _ _ (touch _ _) => unfold touch
  | |- alike _ _ (unlink_missing_ok _ _) => unfold unlink_missing_ok
  | |- alike _ _ (remove_entry _ _) => unfold remove_entry
  | |- alike _ _ (rmtree _ _) => unfold rmtree
  | |- alike _ _ (copy_entry _ _ _) => unfold copy_entry
  | |- alike _ _ (copytree_symlinks _ _ _) => unfold copytree_symlinks
  | |- alike _ _ (mkdir_exist_ok _) => unfold mkdir_exist_ok
  | |- alike _ _ (get_build_metadata _ _) => unfold get_build_metadata
  | |- alike _ _ (get_consistent_flag _) => unfold get_consistent_flag
  | |- alike _ _ (get_remote_channel_data _ _) =>
      unfold get_remote_channel_data
  | |- alike _ _ (run_cmd_extract _ _ _ _) => unfold run_cmd_extract
  | |- alike _ _ (handle_agnos_update _ _) => unfold handle_agnos_update
  | |- alike _ _ (set_consistent_flag _) => unfold set_consistent_flag
  | |- alike _ _ (set_status_params _ _ _) => unfold set_status_params
  | |- alike _ _ (set_channel_params _ _ _) => unfold set_channel_params
  | |- alike _ _ (set_current_channel_params _ _) =>
      unfold set_current_channel_params
  | |- alike _ _ (set_new_channel_params _ _) =>
      unfold set_new_channel_params
  | |- alike _ _ (check_update_available _ _ _) =>
      unfold check_update_available
  | |- alike _ _ (download_entry _ _) => unfold download_entry
  | |- alike _ _ (download_update _ _) => unfold download_update
  | |- alike _ _ (finalize_update _) => unfold finalize_update
  | |- alike _ _ (fetch_and_finalize _ _) => unfold fetch_and_finalize
  | |- alike _ _ (handle_remote _ _ _ _ _) => unfold handle_remote
  | |- alike _ _ (cycle _) => unfold cycle
  end.

Ltac alike_walk := cbn beta iota; repeat (alike_step; cbn beta iota).

(** What is left of a walk: the two machines stay related over a step. *)
Ltac alike_side :=
  intros ? ? ?; alike_facts; unfold TARGET_KEY in *; simpl in *;
  rewrite ?lookup_insert;
  repeat split;
  repeat match goal with
         | H : _ = _ |- _ => rewrite H
         end;
  done.


Lemma alike_cycle w : alike same_inputs same_inputs (cycle w).
Proof. alike_walk; alike_side. Qed.

Lemma alike_seq {A B} (P Mid R : snapshot → snapshot → Prop)
    (m : M A) (f : A → M B) :
  alike P Mid m → (∀ a, alike Mid R (f a)) →
  (∀ s x, Mid s x → R s x) →
  alike P R (m ≫= f).
Proof.
  intros Hm Hf Himp s x Hs. rewrite !bind_run.
  destruct (Hm s x Hs) as (Hev & Ho & Hr).
  destruct (m s) as [[t1 s1] r1], (m x) as [[t1' x1] r1'].
  cbn [events steps final outcome fst snd] in *. subst r1'.
  destruct r1 as [a|e]; [|by auto].
  destruct (Hf a s1 x1 Hr) as (Hev2 & Ho2 & Hr2).
  destruct (f a s1) as [[t2 s2] r2], (f a x1) as [[t2' x2] r2'].
  cbn [events steps final outcome fst snd] in *.
  split_and!; [|done|done].
  by rewrite !fmap_app, Hev, Hev2.
Qed.

Lemma alike_run_cycles w reqs :
  alike same_store same_store (run_cycles w reqs).
Proof.
  induction reqs as [|r reqs IH]; simpl.
  - by apply alike_ret.
  - apply alike_seq with (Mid := same_inputs);
      [apply alike_set_user_request; by split| |by intros ? ? [? _]].
    intros _.
    apply alike_seq with (Mid := same_inputs);
      [apply alike_cycle| |by intros ? ? [? _]].
    intros _. intros s x [Hs _]. by apply IH.
Qed.

(** X16.  The published parameters are write-only.  Of the parameter
    store, [main] reads the persisted target and nothing else: started on
    two machines with the same disk and the same value (or absence) of
    [UpdaterTargetBranch], whatever the other parameters (the published
    state, the two flags, the channel descriptions) and whatever request
    was pending, it takes the same steps, ends the same way and leaves the
    same disk and the same target. *)
Theorem main_reads_only_target w reqs s x :
  disk x = disk s →
  params x !! "UpdaterTargetBranch" = params s !! "UpdaterTargetBranch" →
  events (main w reqs x) = events (main w reqs s) ∧
  outcome (main w reqs x) = outcome (main w reqs s) ∧
  disk (final (main w reqs x)) = disk (final (main w reqs s)) ∧
  params (final (main w reqs x)) !! "UpdaterTargetBranch"
    = params (final (main w reqs s)) !! "UpdaterTargetBranch".
Proof.
  intros Hd Ht.
  assert (alike same_store same_store (main w reqs)) as H.
  { unfold main. apply alike_bind; [alike_walk; alike_side|].
    intros _. apply alike_run_cycles. }
  destruct (H s x (conj Hd Ht)) as (Hev & Ho & Hd' & Ht').
  done.
Qed.

(** Witness of [main_reads_only_target]: the same device, once with an
    empty parameter store and once with a stale publication of an
    available update and a pending download request. *)
Lemma main_reads_only_target_witness :
  let w := sample_world "c2" in
  let s := sample_machine (sample_release "release" "c1") None NONE in
  let x := with_request FETCH
             (with_params (λ _, {[ "UpdaterState" := "idle";
                                   "UpdaterFetchAvailable" := "1";
                                   "UpdateAvailable" := "1" ]}) s) in
  events (main w [NONE; CHECK] x) = events (main w [NONE; CHECK] s) ∧
  outcome (main w [NONE; CHECK] x) = outcome (main w [NONE; CHECK] s).
Proof.
  intros w s x.
  destruct (main_reads_only_target w [NONE; CHECK] s x) as (Hev & Ho & _);
    [reflexivity|by vm_compute|].
  by split.
Defined.

(** * Further properties: turns of the loop *)

(** X17.  A device that already runs the commit the remote serves
    downloads nothing, whatever was requested.  Let the running build's
    metadata be readable and, if the marker is set, that of the finalized
    directory too (line 151 reads it).  Then, also under a pending
    download request, the turn publishes [Checking] and then [Idle] twice,
    with [update_available = False] and the marker state as
    [update_ready], records no other step than the parameter writes and
    the fetch, leaves the disk as it is and consumes the request. *)
Theorem cycle_up_to_date w s d bm rm man :
  basedir (disk s) = Some d →
  build_metadata_of w d = Some bm →
  fetch_channel_data w (resolved_target s bm) = Ok (rm, man) →
  git_commit (openpilot rm) = git_commit (openpilot bm) →
  (marker s = true → is_Some (finalized_identity w s)) →
  let r := cycle w s in
  outcome r = Ok tt ∧
  events r = checking_events w s bm
             ++ status_puts IDLE false (marker s)
             ++ status_puts IDLE false (marker s) ∧
  disk (final r) = disk s ∧
  request (final r) = NONE ∧
  params (final r) !! "UpdaterFetchAvailable" = Some "0".
Proof.
  intros Hd Hbm Hx Hsame Hfin r. subst r.
  enough (wp (cycle w) (λ t r s',
    r = Ok tt ∧
    t.*1 = checking_events w s bm
           ++ status_puts IDLE false (marker s)
           ++ status_puts IDLE false (marker s) ∧
    disk s' = disk s ∧ request s' = NONE ∧
    params s' !! "UpdaterFetchAvailable" = Some "0") s) as H by exact H.
  unfold cycle, handle_remote. wp_run.
  wp_known ltac:(exact (get_build_metadata_run w BASEDIR s d bm Hd Hbm)).
  unfold checking_events, resolved_target, marker in *.
  assert (bool_decide (git_commit (openpilot bm) ≠ git_commit (openpilot rm))
          = false) as Hc
    by (apply bool_decide_eq_false_2; intros Hne; by apply Hne).
  destruct (params s !! "UpdaterTargetBranch") as [tc|] eqn:Ht; simpl in Hx;
    wp_run; rewrite Hx; wp_run;
    (wp_known ltac:(by eapply check_update_available_run));
    rewrite Hc.
  all: destruct (has_marker (finalized (disk s))) eqn:Hm.
  all: try (destruct (Hfin eq_refl) as [fm Hfm];
            destruct (finalized_identity_inv w s fm Hfm) as (fd & Hfd & Hfdm);
            wp_known ltac:(by eapply check_update_available_run);
            destruct (bool_decide (git_commit (openpilot fm) ≠ _))).
  all: wp_run.
  all: by (split_and!; [done|done|done|done|params_lookup]).
Qed.

(** Witness of [cycle_up_to_date]: the device runs c2, the remote serves
    c2, and a download was requested. *)
Lemma cycle_up_to_date_witness :
  let w := sample_world "c2" in
  let s := sample_machine (sample_release "release" "c2") None FETCH in
  outcome (cycle w s) = Ok tt ∧
  status_events (events (cycle w s))
    = [(CHECKING, false, false); (IDLE, false, false); (IDLE, false, false)] ∧
  disk (final (cycle w s)) = disk s.
Proof.
  intros w s.
  destruct (cycle_up_to_date w s
              (sample_release "release" "c2") (sample_metadata "release" "c2")
              (sample_metadata "release" "c2") (Some sample_manifest))
    as (Ho & Hev & Hd & _);
    [reflexivity|reflexivity|reflexivity|reflexivity|done|].
  split_and!; [exact Ho| |exact Hd].
  rewrite Hev. reflexivity.
Defined.

(** ** A turn that installs an update *)









(** * Further properties: the mock remote *)

(** X19.  The manifest of [create_remote_response] is one that
    [download_update] acts on: its single entry has the type and the path
    the loop selects, so that for every caidx, and whatever casync then
    does, the download runs exactly one extraction, of that caidx, into
    the staging directory and seeded with the running installation; the
    channel and the digest play no part in it. *)
Theorem create_remote_response_extracts w ch bm caidx dg s :
  let manifest := (create_remote_response ch bm caidx dg).2 in
  Forall well_formed manifest ∧
  expected_extracts manifest = [(caidx, CASYNC_PATH, BASEDIR)] ∧
  extract_events (events (download_update w manifest s))
    = [(caidx, CASYNC_PATH, BASEDIR)].
Proof.
  intros manifest. subst manifest. split_and!.
  - repeat constructor; simpl; eauto.
  - reflexivity.
  - unfold download_update.
    destruct (mkdir_exist_ok_run CASYNC_TMPDIR s) as (t1 & Hrun1 & Hev1).
    destruct (mkdir_exist_ok_run CASYNC_PATH (ensure_dir CASYNC_TMPDIR s))
      as (t2 & Hrun2 & Hev2).
    rewrite (bind_run_ok _ _ _ _ _ _ Hrun1).
    rewrite (bind_run_ok _ _ _ _ _ _ Hrun2).
    cbn [create_remote_response snd for_each].
    rewrite bind_run, download_entry_run. cbn [entry_selected e_type e_path
      e_caidx]. rewrite !bool_decide_eq_true_2 by done.
    rewrite run_cmd_extract_run. cbn zeta.
    destruct (negb _ && run_cmd_checks w);
      cbn [events steps final outcome fst snd];
      rewrite ?app_nil_r, !fmap_app, !extract_events_app, Hev1, Hev2;
      reflexivity.
Qed.

(** * Further properties: a manifest that is not there *)

(** X20.  A body with build metadata and a [null] manifest passes the
    guard of line 148.  On a turn that is not check-only and finds an
    update available, [download_update] is then called with [None]: the
    turn publishes [Checking], [Idle] with the update available and
    [Downloading], creates the staging directories if they are missing,
    and raises [TypeError] on iterating the manifest.  Nothing is
    extracted, the finalized directory and the running installation are
    as before, the request stays pending and the last published state is
    [Downloading]. *)
Theorem cycle_null_manifest w s d bm rm :
  request s ≠ CHECK →
  basedir (disk s) = Some d →
  build_metadata_of w d = Some bm →
  fetch_channel_data w (resolved_target s bm) = Ok (rm, None) →
  (marker s = true → is_Some (finalized_identity w s)) →
  computed_available w s bm rm = true →
  let r := cycle w s in
  outcome r = Raise TypeError ∧
  status_events (events r)
    = [(CHECKING, false, false); (IDLE, true, marker s);
       (DOWNLOADING, false, false)] ∧
  extract_events (events r) = [] ∧
  finalized (disk (final r)) = finalized (disk s) ∧
  basedir (disk (final r)) = basedir (disk s) ∧
  is_Some (casync (disk (final r))) ∧
  request (final r) = request s ∧
  params (final r) !! "UpdaterState" = Some (state_value DOWNLOADING).
Proof.
  intros Hreq Hd Hbm Hx Hfin Hav r. subst r.
  enough (wp (cycle w) (λ t r s',
    r = Raise TypeError ∧
    status_events t.*1
      = [(CHECKING, false, false); (IDLE, true, marker s);
         (DOWNLOADING, false, false)] ∧
    extract_events t.*1 = [] ∧
    finalized (disk s') = finalized (disk s) ∧
    basedir (disk s') = basedir (disk s) ∧
    is_Some (casync (disk s')) ∧
    request s' = request s ∧
    params s' !! "UpdaterState" = Some (state_value DOWNLOADING)) s) as H
    by exact H.
  unfold cycle, handle_remote, fetch_and_finalize, download_update,
    mkdir_exist_ok.
  wp_run.
  wp_known ltac:(exact (get_build_metadata_run w BASEDIR s d bm Hd Hbm)).
  rewrite (bool_decide_eq_false_2 _ Hreq).
  unfold computed_available, commit_differs, resolved_target, marker in *.
  apply andb_true_iff in Hav as [Hc Hav]. apply negb_true_iff in Hav.
  destruct (params s !! "UpdaterTargetBranch") as [tc|] eqn:Ht; simpl in Hx;
    wp_run; rewrite Hx; wp_run;
    (wp_known ltac:(by eapply check_update_available_run));
    rewrite Hc.
  all: destruct (has_marker (finalized (disk s))) eqn:Hm.
  all: try (destruct (Hfin eq_refl) as [fm Hfm]; rewrite Hfm in Hav;
            destruct (finalized_identity_inv w s fm Hfm) as (fd & Hfd & Hfdm);
            wp_known ltac:(by eapply check_update_available_run);
            simpl in Hav; apply negb_false_iff in Hav; rewrite Hav).
  all: wp_run.
  all: destruct (casync_tmp (disk s)) eqn:Htmp; wp_run.
  all: destruct (casync (disk s)) eqn:Hcas; wp_run.
  all: by (split_and!; [done|done|done|done|done|eauto|done|params_lookup]).
Qed.

(** Witness of [cycle_null_manifest]: the device runs c1, the remote
    serves the metadata of c2 with a [null] manifest. *)
Lemma cycle_null_manifest_witness :
  let w := sample_world_null_manifest "c2" in
  let s := sample_machine (sample_release "release" "c1") None NONE in
  outcome (cycle w s) = Raise TypeError ∧
  status_events (events (cycle w s))
    = [(CHECKING, false, false); (IDLE, true, false);
       (DOWNLOADING, false, false)].
Proof.
  intros w s.
  destruct (cycle_null_manifest w s
              (sample_release "release" "c1") (sample_metadata "release" "c1")
              (sample_metadata "release" "c2"))
    as (Ho & Hev & _);
    [done|reflexivity|reflexivity|reflexivity|done|reflexivity|].
  by split.
Defined.
